(** * Poisson distribution evaluator (boost/math/distributions/poisson.hpp)

    A shallow embedding of the header.  The header is a template over its
    element type [RealType]; the embedding is a development over a type class
    with the operations the header applies to that type, so every definition
    below is the source function with the template parameter left abstract.
    The incomplete-gamma family, [lgamma] and the factorial table are
    collaborators that the header only calls; they form a second class.

    A concrete element type (exact reals with one non-finite value) is given
    afterwards.  It is an idealisation of binary floating point: nothing
    rounds, overflows or underflows in it.  The statements about the header
    are therefore made for every element type; the exact type supplies the
    inputs at which they are exercised, and carries only the few statements
    that are arithmetic identities or hold of floating point as they
    stand. *)

From Stdlib Require Import Bool List String ZArith NArith Lia.
From Stdlib Require Import Reals Lra.
From Stdlib Require Import SpecFloat.
Import ListNotations.

Set Implicit Arguments.

(** ** The element type *)

Declare Scope rt_scope.
Delimit Scope rt_scope with rt.

(** Operations the header uses on [RealType].  Comparisons are the C++
    operators and return [bool]; [of_int] is the implicit conversion of an
    integer literal or of an unsigned constant; [real_cast] is
    [tools::real_cast<unsigned int>]. *)
Class RealType (T : Type) : Type := {
  of_int    : Z -> T;
  real_cast : T -> N;
  isfinite  : T -> bool;
  ltb       : T -> T -> bool;
  leb       : T -> T -> bool;
  eqb       : T -> T -> bool;
  opp       : T -> T;
  add       : T -> T -> T;
  sub       : T -> T -> T;
  mul       : T -> T -> T;
  div       : T -> T -> T;
  exp       : T -> T;
  expm1     : T -> T;
  log       : T -> T;
  pow       : T -> T -> T;
  sqrt      : T -> T;
  floor     : T -> T;
  max_value : T;
  (* Order facts shared by IEEE arithmetic and by exact arithmetic. *)
  eqb_leb   : forall x y, eqb x y = true -> leb x y = true;
  ltb_leb   : forall x y, ltb x y = true -> leb x y = true;
  ltb_neq   : forall x y, ltb x y = true -> eqb y x = false;
  ltb_not_leb : forall x y, ltb x y = true -> leb y x = false;
  leb_not_ltb : forall x y, leb x y = true -> ltb y x = false;
  mul_comm  : forall x y, mul x y = mul y x;
  (* An integral value below an unsigned constant converts exactly. *)
  real_cast_exact : forall x n,
    isfinite x = true -> ltb x (of_int 0) = false ->
    eqb (floor x) x = true ->
    (n < 2 ^ 32)%N -> ltb x (of_int (Z.of_N n)) = true ->
    eqb (of_int (Z.of_N (real_cast (floor x)))) x = true;
  (* The conversion of unsigned constants does not reverse the order. *)
  of_int_ltb : forall a b x,
    eqb (of_int (Z.of_N a)) x = true ->
    ltb x (of_int (Z.of_N b)) = true -> (a < b)%N
}.

Notation "x <? y"  := (ltb x y) : rt_scope.
Notation "x <=? y" := (leb x y) : rt_scope.
Notation "x >? y"  := (ltb y x) (only parsing) : rt_scope.
Notation "x =? y"  := (eqb x y) : rt_scope.
Notation "- x"     := (opp x) : rt_scope.
Notation "x + y"   := (add x y) : rt_scope.
Notation "x - y"   := (sub x y) : rt_scope.
Notation "x * y"   := (mul x y) : rt_scope.
Notation "x / y"   := (div x y) : rt_scope.

(** Collaborators included by the header but defined elsewhere in the
    library: special functions and the factorial table.
    [max_factorial] is [max_factorial<RealType>::value], an [unsigned]. *)
Class Special (T : Type) : Type := {
  lgamma        : T -> T;
  gamma_P       : T -> T -> T;
  gamma_Q       : T -> T -> T;
  gamma_P_inva  : T -> T -> T;
  gamma_Q_inva  : T -> T -> T;
  factorials    : list T;
  max_factorial : N
}.

(** ** The header, over an arbitrary element type *)

Section Poisson.

Context {T : Type} {RT : RealType T} {SP : Special T}.
Local Open Scope string_scope.
Local Open Scope rt_scope.

(** What [tools::domain_error<RealType>(function, message, val)] was called
    with.  Whether the policy raises or hands back a sentinel, this is the
    designated error result. *)
Record report : Type := Report {
  function : string;
  message  : string;
  val      : T
}.

Definition domain_error (function message : string) (val : T) : report :=
  Report function message val.

(** The out-parameter [RealType* result].  It is declared uninitialised by
    every caller; the model keeps every store made through it, newest first,
    so the empty list is the slot that was never written. *)
Definition slot : Type := list report.

(** Modelled from the spec: [unchecked_factorial<RealType>(i)] is the
    unguarded lookup [factorials[i]] in the factorial table; the table itself
    is not part of the header.  An index past the end has no defined
    result. *)
Definition unchecked_factorial (i : N) : option T :=
  nth_error factorials (N.to_nat i).

Definition check_mean (function : string) (mean : T) (result : slot)
  : bool * slot :=
  if negb (isfinite mean) || (mean <? of_int 0)
  then (false,
        domain_error function "Mean argument is %1%, but must be >= 0 !" mean
          :: result)
  else (true, result).

(* mean == 0 is considered an error. *)
Definition check_mean_NZ (function : string) (mean : T) (result : slot)
  : bool * slot :=
  if negb (isfinite mean) || (mean <=? of_int 0)
  then (false,
        domain_error function "Mean argument is %1%, but must be > 0 !" mean
          :: result)
  else (true, result).

Definition check_dist (function : string) (mean : T) (result : slot)
  : bool * slot :=
  check_mean_NZ function mean result.

Definition check_k (function : string) (k : T) (result : slot)
  : bool * slot :=
  if (k <? of_int 0) || negb (isfinite k)
  then (false,
        domain_error function
          "Number of events k argument is %1%, but must be >= 0 !" k
          :: result)
  else (true, result).

(** [a || b] on two checks that share the slot: the second one runs, and can
    write, only when the first one succeeded. *)
Definition check_dist_and_k (function : string) (mean k : T) (result : slot)
  : bool * slot :=
  let (ok, result) := check_dist function mean result in
  if Bool.eqb ok false then (false, result)
  else
    let (ok, result) := check_k function k result in
    if Bool.eqb ok false then (false, result) else (true, result).

Definition check_prob (function : string) (p : T) (result : slot)
  : bool * slot :=
  if negb (isfinite p) || (p <? of_int 0) || (p >? of_int 1)
  then (false,
        domain_error function
          "Probability argument is %1%, but must be >= 0 and <= 1 !" p
          :: result)
  else (true, result).

Definition check_dist_and_prob (function : string) (mean p : T)
  (result : slot) : bool * slot :=
  let (ok, result) := check_dist function mean result in
  if Bool.eqb ok false then (false, result)
  else
    let (ok, result) := check_prob function p result in
    if Bool.eqb ok false then (false, result) else (true, result).

(** The distribution object: one data member. *)
Record poisson_distribution : Type := Poisson { m_l : T }.

(** What constructing an object gives.  [tools::domain_error] either hands
    back a sentinel, and then the constructor completes whatever the mean
    is, or raises, and then no object exists. *)
Inductive construction : Type :=
| Constructed (dist : poisson_distribution) (r : slot)
| ConstructionRaised (e : report).

(** The constructor stores the mean and runs [check_dist] on a local that it
    then drops; [Constructed] carries the object and that local.
    [throw_on_domain_error] is the error policy the library was built with
    ([BOOST_MATH_THROW_ON_DOMAIN_ERROR]): under it the call of
    [tools::domain_error] inside the check, which is the one place where
    the local is stored to, leaves the constructor by an exception. *)
Definition poisson_distribution_ctor (throw_on_domain_error : bool) (mean : T)
  : construction :=
  let m := Poisson mean in
  let (_, r) := check_dist "poisson_distribution" (m_l m) [] in
  match r with
  | e :: _ => if throw_on_domain_error then ConstructionRaised e
              else Constructed m r
  | [] => Constructed m r
  end.

Definition mean (dist : poisson_distribution) : T := m_l dist.

Definition range (dist : poisson_distribution) : T * T :=
  (of_int 0, max_value).

Definition support (dist : poisson_distribution) : T * T :=
  (of_int 0, max_value).

Definition mode (dist : poisson_distribution) : T := floor (mean dist).

Definition variance (dist : poisson_distribution) : T := mean dist.

Definition skewness (dist : poisson_distribution) : T :=
  of_int 1 / sqrt (mean dist).

Definition kurtosis_excess (dist : poisson_distribution) : T :=
  of_int 1 / mean dist.

Definition kurtosis (dist : poisson_distribution) : T :=
  of_int 3 + of_int 1 / mean dist.

(** What an evaluator hands back. *)
Inductive outcome : Type :=
| Value (v : T)
| DomainError (e : report)      (* [return result;] after a failed check *)
| Indeterminate                 (* [return result;] with the slot unwritten *)
| TableOverrun (i : N).         (* factorial table read past its end *)

Definition read (result : slot) : outcome :=
  match result with
  | e :: _ => DomainError e
  | [] => Indeterminate
  end.

Definition pdf (dist : poisson_distribution) (k : T) : outcome :=
  let mean := mean dist in
  let (ok, result) := check_dist_and_k "pdf" mean k [] in
  if Bool.eqb false ok then read result
  else if mean =? of_int 0 then Value (of_int 0)
  else if k =? of_int 0 then Value (exp (- mean))
  else
    let floork := floor k in
    if (floork =? k) && (k <? of_int (Z.of_N max_factorial))
    then
      match unchecked_factorial (real_cast floork) with
      | Some f => Value (exp (- mean) * pow mean k / f)
      | None => TableOverrun (real_cast floork)
      end
    else Value (exp (- mean + log mean * k - lgamma (k + of_int 1))).

Definition cdf (dist : poisson_distribution) (k : T) : outcome :=
  let mean := mean dist in
  let (ok, result) := check_dist_and_k "cdf" mean k [] in
  if Bool.eqb false ok then read result
  else if mean =? of_int 0 then Value (of_int 0)
  else if k =? of_int 0 then Value (exp (- mean))
  else Value (gamma_Q (k + of_int 1) mean).

(** [cdf(complement(dist, k))]. *)
Definition cdf_complement (dist : poisson_distribution) (k : T) : outcome :=
  let mean := mean dist in
  let (ok, result) := check_dist_and_k "cdf(complement)" mean k [] in
  if Bool.eqb false ok then read result
  else if mean =? of_int 0 then Value (of_int 1)
  else if k =? of_int 0 then Value (- expm1 (- mean))
  else Value (gamma_P (k + of_int 1) mean).

(** Both quantiles validate the probability first and re-check the mean only
    inside the guard [mean == 0]; [after_checks] is the code that follows the
    guard. *)
Definition quantile (dist : poisson_distribution) (p : T) : outcome :=
  let (ok, result) := check_prob "quantile" p [] in
  if Bool.eqb false ok then read result
  else
    let after_checks :=
      if p <=? exp (- mean dist) then Value (of_int 0)
      else Value (gamma_Q_inva (mean dist) p - of_int 1) in
    if mean dist =? of_int 0
    then
      let (ok, result) := check_mean_NZ "quantile" (mean dist) result in
      if Bool.eqb false ok then read result else after_checks
    else after_checks.

(** [quantile(complement(dist, q))]. *)
Definition quantile_complement (dist : poisson_distribution) (q : T)
  : outcome :=
  let (ok, result) := check_prob "quantile(complement)" q [] in
  if Bool.eqb false ok then read result
  else
    let after_checks :=
      if - q <=? expm1 (- mean dist) then Value (of_int 0)
      else Value (gamma_P_inva (mean dist) q - of_int 1) in
    if mean dist =? of_int 0
    then
      let (ok, result) :=
        check_mean_NZ "quantile(complement)" (mean dist) result in
      if Bool.eqb false ok then read result else after_checks
    else after_checks.

(** The three error messages that matter below, as the header spells them. *)
Definition msg_mean_NZ : string := "Mean argument is %1%, but must be > 0 !".
Definition msg_k : string :=
  "Number of events k argument is %1%, but must be >= 0 !".
Definition msg_prob : string :=
  "Probability argument is %1%, but must be >= 0 and <= 1 !".

End Poisson.

Arguments report : clear implicits.
Arguments slot : clear implicits.
Arguments poisson_distribution : clear implicits.
Arguments outcome : clear implicits.
Arguments construction : clear implicits.

(** ** A concrete element type: exact reals and one non-finite value

    Finite values are real numbers and every operation on them is exact;
    [NaN] stands for every non-finite value and is absorbing, as a quiet NaN
    is.  Operations outside their real domain (division by zero, logarithm
    of a non-positive number) give [NaN]. *)

Inductive xreal : Type :=
| Fin (r : R)
| NaN.

Definition Rltb (a b : R) : bool := if Rlt_dec a b then true else false.
Definition Rleb (a b : R) : bool := if Rle_dec a b then true else false.
Definition Reqb (a b : R) : bool := if Req_dec_T a b then true else false.

Definition lift1 (f : R -> R) (x : xreal) : xreal :=
  match x with Fin a => Fin (f a) | NaN => NaN end.

Definition lift2 (f : R -> R -> R) (x y : xreal) : xreal :=
  match x, y with Fin a, Fin b => Fin (f a b) | _, _ => NaN end.

Definition cmp2 (f : R -> R -> bool) (x y : xreal) : bool :=
  match x, y with Fin a, Fin b => f a b | _, _ => false end.

Definition x_isfinite (x : xreal) : bool :=
  match x with Fin _ => true | NaN => false end.

(** Conversion to [unsigned int]: truncation, then 32 bits. *)
Definition x_real_cast (x : xreal) : N :=
  match x with
  | Fin a => (Z.to_N (Zfloor a) mod 2 ^ 32)%N
  | NaN => 0%N
  end.

Definition x_div (x y : xreal) : xreal :=
  match x, y with
  | Fin a, Fin b => if Reqb b 0 then NaN else Fin (a / b)
  | _, _ => NaN
  end.

Definition x_log (x : xreal) : xreal :=
  match x with
  | Fin a => if Rltb 0 a then Fin (ln a) else NaN
  | NaN => NaN
  end.

Definition x_pow (x y : xreal) : xreal :=
  match x, y with
  | Fin a, Fin b => if Rltb 0 a then Fin (Rpower a b) else NaN
  | _, _ => NaN
  end.

Definition x_sqrt (x : xreal) : xreal :=
  match x with
  | Fin a => if Rleb 0 a then Fin (R_sqrt.sqrt a) else NaN
  | NaN => NaN
  end.

Definition x_floor (x : xreal) : xreal :=
  lift1 (fun a => IZR (Zfloor a)) x.

(** The largest finite binary64 number. *)
Definition x_max_value : xreal := Fin (IZR (2 ^ 1024 - 2 ^ 971)).

Lemma Rltb_true (a b : R) : Rltb a b = true <-> (a < b)%R.
Proof. unfold Rltb; destruct (Rlt_dec a b); split; auto; discriminate. Qed.

Lemma Rltb_false (a b : R) : Rltb a b = false <-> (b <= a)%R.
Proof.
  unfold Rltb; destruct (Rlt_dec a b); split; auto; try discriminate; lra.
Qed.

Lemma Rleb_true (a b : R) : Rleb a b = true <-> (a <= b)%R.
Proof. unfold Rleb; destruct (Rle_dec a b); split; auto; discriminate. Qed.

Lemma Rleb_false (a b : R) : Rleb a b = false <-> (b < a)%R.
Proof.
  unfold Rleb; destruct (Rle_dec a b); split; auto; try discriminate; lra.
Qed.

Lemma Reqb_true (a b : R) : Reqb a b = true <-> a = b.
Proof. unfold Reqb; destruct (Req_dec_T a b); split; auto; discriminate. Qed.

Lemma Reqb_false (a b : R) : Reqb a b = false <-> a <> b.
Proof.
  unfold Reqb; destruct (Req_dec_T a b); split; auto; try discriminate.
  intros H; contradiction.
Qed.

(** Turns boolean comparisons of reals, in the goal and in the context, into
    the propositions they decide. *)
Ltac r_prop :=
  repeat match goal with
         | H : Rltb _ _ = true |- _ => apply Rltb_true in H
         | H : Rltb _ _ = false |- _ => apply Rltb_false in H
         | H : Rleb _ _ = true |- _ => apply Rleb_true in H
         | H : Rleb _ _ = false |- _ => apply Rleb_false in H
         | H : Reqb _ _ = true |- _ => apply Reqb_true in H
         | H : Reqb _ _ = false |- _ => apply Reqb_false in H
         | |- Rltb _ _ = true => apply Rltb_true
         | |- Rltb _ _ = false => apply Rltb_false
         | |- Rleb _ _ = true => apply Rleb_true
         | |- Rleb _ _ = false => apply Rleb_false
         | |- Reqb _ _ = true => apply Reqb_true
         | |- Reqb _ _ = false => apply Reqb_false
         end.

Lemma x_real_cast_integral (a : R) (n : N) :
  (0 <= a)%R -> IZR (Zfloor a) = a -> (n < 2 ^ 32)%N ->
  (a < IZR (Z.of_N n))%R ->
  IZR (Z.of_N (x_real_cast (x_floor (Fin a)))) = a.
Proof.
  intros H0 Hint Hn Hlt. unfold x_floor, lift1, x_real_cast.
  rewrite ZfloorZ.
  assert (Hz0 : (0 <= Zfloor a)%Z) by (apply le_IZR; lra).
  assert (Hzn : (Zfloor a < Z.of_N n)%Z) by (apply lt_IZR; lra).
  rewrite N.mod_small by lia.
  rewrite Z2N.id by lia. exact Hint.
Qed.

#[export, refine] Instance xreal_RealType : RealType xreal := {|
  of_int z  := Fin (IZR z);
  real_cast := x_real_cast;
  isfinite  := x_isfinite;
  ltb       := cmp2 Rltb;
  leb       := cmp2 Rleb;
  eqb       := cmp2 Reqb;
  opp       := lift1 Ropp;
  add       := lift2 Rplus;
  sub       := lift2 Rminus;
  mul       := lift2 Rmult;
  div       := x_div;
  exp       := lift1 Rtrigo_def.exp;
  expm1     := lift1 (fun a => Rtrigo_def.exp a - 1)%R;
  log       := x_log;
  pow       := x_pow;
  sqrt      := x_sqrt;
  floor     := x_floor;
  max_value := x_max_value
|}.
Proof.
  - intros [a|] [b|] H; cbn in *; try discriminate; r_prop; lra.
  - intros [a|] [b|] H; cbn in *; try discriminate; r_prop; lra.
  - intros [a|] [b|] H; cbn in *; try discriminate; r_prop; lra.
  - intros [a|] [b|] H; cbn in *; try discriminate; r_prop; lra.
  - intros [a|] [b|] H; cbn in *; try discriminate; r_prop; lra.
  - intros [a|] [b|]; cbn; try reflexivity. now rewrite Rmult_comm.
  - intros [a|] n Hf Hn Hi Hn32 Hlt; try discriminate.
    cbn [cmp2 x_floor lift1] in Hn, Hi, Hlt. r_prop.
    change (Reqb (IZR (Z.of_N (x_real_cast (x_floor (Fin a))))) a = true).
    r_prop. apply x_real_cast_integral with (n := n); assumption.
  - intros a b [r|] He Hl; cbn in *; try discriminate. r_prop.
    assert (Hab : (Z.of_N a < Z.of_N b)%Z) by (apply lt_IZR; lra).
    lia.
Defined.

(** ** The order laws and IEEE 754

    The comparison laws of [RealType] are stated so that binary floating
    point satisfies them too: they hold for the comparisons of the IEEE
    specification, signed zeros, infinities and NaN included. *)

Lemma SFcompare_antisym (x y : spec_float) :
  SFcompare y x = option_map CompOpp (SFcompare x y).
Proof.
  destruct x as [s1 | s1 | | s1 m1 e1], y as [s2 | s2 | | s2 m2 e2];
    try reflexivity;
    try (destruct s1, s2; reflexivity);
    try (destruct s1; reflexivity);
    try (destruct s2; reflexivity).
  simpl. f_equal.
  destruct s1, s2; try reflexivity;
    rewrite (Z.compare_antisym e1 e2);
    destruct (e1 ?= e2)%Z; simpl; try reflexivity;
    change (Pos.compare_cont Eq m2 m1) with (Pos.compare m2 m1);
    change (Pos.compare_cont Eq m1 m2) with (Pos.compare m1 m2);
    rewrite (Pos.compare_antisym m1 m2); try reflexivity.
Qed.

Lemma IEEE_order_laws (x y : spec_float) :
  (SFeqb x y = true -> SFleb x y = true) /\
  (SFltb x y = true -> SFleb x y = true) /\
  (SFltb x y = true -> SFeqb y x = false) /\
  (SFltb x y = true -> SFleb y x = false) /\
  (SFleb x y = true -> SFltb y x = false).
Proof.
  unfold SFeqb, SFltb, SFleb. rewrite (SFcompare_antisym x y).
  destruct (SFcompare x y) as [[| |] |]; simpl; repeat split;
    intros H; try reflexivity; discriminate H.
Qed.

(** ** A model of the collaborators

    Modelled from the spec: the incomplete gamma functions, their parameter
    inverses, [lgamma] and the factorial table are not part of the header.
    The spec asks of them that P + Q = 1, that Q(k + 1, x) is the Poisson
    sum up to [k], and that the [_inva] functions invert P and Q in the
    shape argument.  At a positive integer shape [n] the regularized
    function has the closed form Q(n, x) = exp(-x) * sum_{i<n} x^i / i!;
    this model takes those values and joins them by straight lines, which
    gives a continuous function, increasing in the shape, whose inverse is
    computed exactly.  It is the instance at which the generic statements
    are exercised. *)

Fixpoint poisson_sum (x : R) (n : nat) : R :=
  match n with
  | O => 0
  | S m => poisson_sum x m + x ^ m / INR (fact m)
  end.

Definition positive_integer (a : R) : option nat :=
  if Reqb (IZR (Zfloor a)) a && (0 <? Zfloor a)%Z
  then Some (Z.to_nat (Zfloor a))
  else None.

(** Q at shape [a >= 0]: between [n = floor a] and [n + 1] the value moves
    linearly from Q(n, x) to Q(n + 1, x), whose difference is
    [exp(-x) * x^n / n!]. *)
Definition x_gamma_Q (a x : xreal) : xreal :=
  match a, x with
  | Fin a, Fin x =>
      if Rleb 0 a && Rleb 0 x
      then let n := Z.to_nat (Zfloor a) in
           Fin (Rtrigo_def.exp (- x)
                * (poisson_sum x n + (a - INR n) * (x ^ n / INR (fact n))))
      else NaN
  | _, _ => NaN
  end.

Definition x_gamma_P (a x : xreal) : xreal :=
  lift2 Rminus (Fin 1) (x_gamma_Q a x).

Definition x_lgamma (x : xreal) : xreal :=
  match x with
  | Fin a =>
      match positive_integer a with
      | Some n => Fin (ln (INR (fact (n - 1))))
      | None => NaN
      end
  | NaN => NaN
  end.

(** The shape at which Q(., x) takes the value [p]: the first [n] with
    [p < Q(n + 1, x)], then the point of the segment from [n] to [n + 1]
    where the line passes through [p].  The search gives up after [fuel]
    segments. *)
Fixpoint shape_search (x p : R) (n fuel : nat) : xreal :=
  match fuel with
  | O => NaN
  | S fuel' =>
      if Rltb p (Rtrigo_def.exp (- x) * poisson_sum x (S n))
      then Fin (INR n
                + (p - Rtrigo_def.exp (- x) * poisson_sum x n)
                  / (Rtrigo_def.exp (- x) * (x ^ n / INR (fact n))))
      else shape_search x p (S n) fuel'
  end.

Definition x_gamma_Q_inva (x p : xreal) : xreal :=
  match x, p with
  | Fin x, Fin p =>
      if Rltb 0 x && Rleb 0 p then shape_search x p 0 171 else NaN
  | _, _ => NaN
  end.

Definition x_gamma_P_inva (x q : xreal) : xreal :=
  x_gamma_Q_inva x (lift2 Rminus (Fin 1) q).

(** The table 0!, 1!, ..., built as the library's generator does, by
    running products. *)
Fixpoint factorial_table (i f : Z) (len : nat) : list xreal :=
  match len with
  | O => []
  | S len' => Fin (IZR f) :: factorial_table (i + 1) (f * (i + 1)) len'
  end.

(** The binary64 figures: 171 entries, [max_factorial<double>::value] = 170. *)
#[export] Instance lattice_Special : Special xreal := {|
  lgamma        := x_lgamma;
  gamma_P       := x_gamma_P;
  gamma_Q       := x_gamma_Q;
  gamma_P_inva  := x_gamma_P_inva;
  gamma_Q_inva  := x_gamma_Q_inva;
  factorials    := factorial_table 0 1 171;
  max_factorial := 170
|}.

(** The round trip of the quantile as the specification words it: the
    quantile is an integer [k], [cdf] at [k] is a value not below [p], and
    [cdf] at [k - 1] is a value below [p]. *)
Definition quantile_round_trip {SP : Special xreal} (l p : R) : Prop :=
  exists k : R,
    quantile (Poisson (Fin l)) (Fin p) = Value (Fin k) /\
    IZR (Zfloor k) = k /\
    (exists c : R, cdf (Poisson (Fin l)) (Fin k) = Value (Fin c) /\
                   (p <= c)%R) /\
    (exists c : R, cdf (Poisson (Fin l)) (sub (Fin k) (of_int 1))
                   = Value (Fin c) /\ (c < p)%R).

(** * Properties of the header, for every element type *)

Section PoissonFacts.

Context {T : Type} {RT : RealType T} {SP : Special T}.
Local Open Scope string_scope.
Local Open Scope rt_scope.

Implicit Types (dist : poisson_distribution T) (mean k p q : T).
Implicit Types (result : slot T).

(** *** The validators *)

Lemma check_mean_NZ_rejects (f : string) mean result :
  isfinite mean = false \/ (mean <=? of_int 0) = true ->
  check_mean_NZ f mean result = (false, Report f msg_mean_NZ mean :: result).
Proof.
  intros H. unfold check_mean_NZ, domain_error, msg_mean_NZ.
  destruct H as [H | H]; rewrite H; simpl; [reflexivity |].
  now rewrite orb_true_r.
Qed.

Lemma check_mean_NZ_accepts (f : string) mean result :
  isfinite mean = true -> (mean <=? of_int 0) = false ->
  check_mean_NZ f mean result = (true, result).
Proof.
  intros Hf Hle. unfold check_mean_NZ. now rewrite Hf, Hle.
Qed.

Lemma check_k_rejects (f : string) k result :
  (k <? of_int 0) = true \/ isfinite k = false ->
  check_k f k result = (false, Report f msg_k k :: result).
Proof.
  intros H. unfold check_k, domain_error, msg_k.
  destruct H as [H | H]; rewrite H; simpl; [reflexivity |].
  now rewrite orb_true_r.
Qed.

Lemma check_k_accepts (f : string) k result :
  isfinite k = true -> (k <? of_int 0) = false ->
  check_k f k result = (true, result).
Proof.
  intros Hf Hlt. unfold check_k. now rewrite Hf, Hlt.
Qed.

Lemma check_prob_rejects (f : string) p result :
  isfinite p = false \/ (p <? of_int 0) = true \/ (of_int 1 <? p) = true ->
  check_prob f p result = (false, Report f msg_prob p :: result).
Proof.
  intros H. unfold check_prob, domain_error, msg_prob.
  destruct H as [H | [H | H]]; rewrite H; simpl;
    rewrite ?orb_true_r; reflexivity.
Qed.

Lemma check_prob_accepts (f : string) p result :
  isfinite p = true -> (p <? of_int 0) = false -> (of_int 1 <? p) = false ->
  check_prob f p result = (true, result).
Proof.
  intros Hf H0 H1. unfold check_prob. now rewrite Hf, H0, H1.
Qed.

(** Every validator either leaves the slot alone and answers [true], or
    answers [false] after exactly one store. *)
Lemma check_prob_cases (f : string) p result :
  check_prob f p result = (true, result) \/
  check_prob f p result = (false, Report f msg_prob p :: result).
Proof.
  unfold check_prob, domain_error, msg_prob.
  destruct (negb (isfinite p) || (p <? of_int 0) || (of_int 1 <? p));
    [right | left]; reflexivity.
Qed.

Lemma check_dist_and_k_mean_rejected (f : string) mean k result :
  isfinite mean = false \/ (mean <=? of_int 0) = true ->
  check_dist_and_k f mean k result
  = (false, Report f msg_mean_NZ mean :: result).
Proof.
  intros H. unfold check_dist_and_k, check_dist.
  now rewrite check_mean_NZ_rejects.
Qed.

Lemma check_dist_and_k_k_rejected (f : string) mean k result :
  isfinite mean = true -> (mean <=? of_int 0) = false ->
  (k <? of_int 0) = true \/ isfinite k = false ->
  check_dist_and_k f mean k result = (false, Report f msg_k k :: result).
Proof.
  intros Hf Hle H. unfold check_dist_and_k, check_dist.
  rewrite check_mean_NZ_accepts by assumption. simpl.
  now rewrite check_k_rejects.
Qed.

Lemma check_dist_and_k_accepts (f : string) mean k result :
  isfinite mean = true -> (mean <=? of_int 0) = false ->
  isfinite k = true -> (k <? of_int 0) = false ->
  check_dist_and_k f mean k result = (true, result).
Proof.
  intros Hf Hle Hkf Hk. unfold check_dist_and_k, check_dist.
  rewrite check_mean_NZ_accepts by assumption. simpl.
  now rewrite check_k_accepts.
Qed.

Lemma check_dist_and_prob_mean_rejected (f : string) mean p result :
  isfinite mean = false \/ (mean <=? of_int 0) = true ->
  check_dist_and_prob f mean p result
  = (false, Report f msg_mean_NZ mean :: result).
Proof.
  intros H. unfold check_dist_and_prob, check_dist.
  now rewrite check_mean_NZ_rejects.
Qed.

(** A positive finite mean passes [check_dist] and is not [== 0]. *)
Lemma positive_mean mean :
  (of_int 0 <? mean) = true ->
  (mean <=? of_int 0) = false /\ (mean =? of_int 0) = false.
Proof.
  intros H. split; [now apply ltb_not_leb | now apply ltb_neq].
Qed.

Lemma check_dist_and_k_true_inv (f : string) mean k result result' :
  check_dist_and_k f mean k result = (true, result') ->
  isfinite mean = true /\ (mean <=? of_int 0) = false /\
  isfinite k = true /\ (k <? of_int 0) = false /\ result' = result.
Proof.
  unfold check_dist_and_k, check_dist, check_mean_NZ, check_k.
  destruct (isfinite mean); simpl; [| discriminate].
  destruct (mean <=? of_int 0); simpl; [discriminate |].
  destruct (k <? of_int 0); simpl; [discriminate |].
  destruct (isfinite k); simpl; [| discriminate].
  intros H; inversion H; auto.
Qed.

(** *** Evaluation of the three evaluators that use [check_dist_and_k] *)

Lemma pdf_rejected dist k (e : report T) result :
  check_dist_and_k "pdf" (mean dist) k [] = (false, e :: result) ->
  pdf dist k = DomainError e.
Proof. intros H. unfold pdf. now rewrite H. Qed.

Lemma cdf_rejected dist k (e : report T) result :
  check_dist_and_k "cdf" (mean dist) k [] = (false, e :: result) ->
  cdf dist k = DomainError e.
Proof. intros H. unfold cdf. now rewrite H. Qed.

Lemma cdf_complement_rejected dist k (e : report T) result :
  check_dist_and_k "cdf(complement)" (mean dist) k [] = (false, e :: result) ->
  cdf_complement dist k = DomainError e.
Proof. intros H. unfold cdf_complement. now rewrite H. Qed.

Lemma pdf_accepted dist k :
  check_dist_and_k "pdf" (mean dist) k [] = (true, []) ->
  (mean dist =? of_int 0) = false ->
  pdf dist k =
  if k =? of_int 0 then Value (exp (- mean dist))
  else if (floor k =? k) && (k <? of_int (Z.of_N max_factorial))
       then match unchecked_factorial (real_cast (floor k)) with
            | Some f => Value (exp (- mean dist) * pow (mean dist) k / f)
            | None => TableOverrun (real_cast (floor k))
            end
       else Value (exp (- mean dist + log (mean dist) * k
                       - lgamma (k + of_int 1))).
Proof. intros H Hz. unfold pdf. now rewrite H, Hz. Qed.

Lemma cdf_accepted dist k :
  check_dist_and_k "cdf" (mean dist) k [] = (true, []) ->
  (mean dist =? of_int 0) = false ->
  cdf dist k =
  if k =? of_int 0 then Value (exp (- mean dist))
  else Value (gamma_Q (k + of_int 1) (mean dist)).
Proof. intros H Hz. unfold cdf. now rewrite H, Hz. Qed.

Lemma cdf_complement_accepted dist k :
  check_dist_and_k "cdf(complement)" (mean dist) k [] = (true, []) ->
  (mean dist =? of_int 0) = false ->
  cdf_complement dist k =
  if k =? of_int 0 then Value (- expm1 (- mean dist))
  else Value (gamma_P (k + of_int 1) (mean dist)).
Proof. intros H Hz. unfold cdf_complement. now rewrite H, Hz. Qed.

(** *** Evaluation of the two quantiles *)

Lemma quantile_prob_rejected dist p :
  isfinite p = false \/ (p <? of_int 0) = true \/ (of_int 1 <? p) = true ->
  quantile dist p = DomainError (Report "quantile" msg_prob p).
Proof.
  intros H. unfold quantile. now rewrite check_prob_rejects.
Qed.

Lemma quantile_complement_prob_rejected dist q :
  isfinite q = false \/ (q <? of_int 0) = true \/ (of_int 1 <? q) = true ->
  quantile_complement dist q
  = DomainError (Report "quantile(complement)" msg_prob q).
Proof.
  intros H. unfold quantile_complement. now rewrite check_prob_rejects.
Qed.

(** With the mean not [== 0] the guard is skipped, whatever the mean is. *)
Lemma quantile_mean_nonzero dist p :
  check_prob "quantile" p [] = (true, []) ->
  (mean dist =? of_int 0) = false ->
  quantile dist p =
  if p <=? exp (- mean dist) then Value (of_int 0)
  else Value (gamma_Q_inva (mean dist) p - of_int 1).
Proof. intros H Hz. unfold quantile. now rewrite H, Hz. Qed.

Lemma quantile_complement_mean_nonzero dist q :
  check_prob "quantile(complement)" q [] = (true, []) ->
  (mean dist =? of_int 0) = false ->
  quantile_complement dist q =
  if - q <=? expm1 (- mean dist) then Value (of_int 0)
  else Value (gamma_P_inva (mean dist) q - of_int 1).
Proof. intros H Hz. unfold quantile_complement. now rewrite H, Hz. Qed.

Lemma quantile_mean_zero dist p :
  (mean dist =? of_int 0) = true ->
  quantile dist p = DomainError (Report "quantile" msg_prob p) \/
  quantile dist p = DomainError (Report "quantile" msg_mean_NZ (mean dist)).
Proof.
  intros Hz. unfold quantile.
  destruct (check_prob_cases "quantile" p []) as [H | H]; rewrite H; simpl.
  - right. rewrite Hz.
    rewrite check_mean_NZ_rejects by (right; now apply eqb_leb).
    reflexivity.
  - left. reflexivity.
Qed.

Lemma quantile_complement_mean_zero dist q :
  (mean dist =? of_int 0) = true ->
  quantile_complement dist q
  = DomainError (Report "quantile(complement)" msg_prob q) \/
  quantile_complement dist q
  = DomainError (Report "quantile(complement)" msg_mean_NZ (mean dist)).
Proof.
  intros Hz. unfold quantile_complement.
  destruct (check_prob_cases "quantile(complement)" q []) as [H | H];
    rewrite H; simpl.
  - right. rewrite Hz.
    rewrite check_mean_NZ_rejects by (right; now apply eqb_leb).
    reflexivity.
  - left. reflexivity.
Qed.

(** *** The factorial table *)

(** On the fast path of [pdf] the index handed to the table is [k] itself,
    below [max_factorial], and the table has an entry for it. *)
Lemma fast_path_index k :
  (max_factorial < 2 ^ 32)%N ->
  (max_factorial <= N.of_nat (List.length factorials))%N ->
  isfinite k = true -> (k <? of_int 0) = false ->
  (floor k =? k) = true -> (k <? of_int (Z.of_N max_factorial)) = true ->
  (real_cast (floor k) < max_factorial)%N /\
  (of_int (Z.of_N (real_cast (floor k))) =? k) = true /\
  exists f, unchecked_factorial (real_cast (floor k)) = Some f.
Proof.
  intros H32 Hlen Hf H0 Hint Hlt.
  assert (Hexact := real_cast_exact k Hf H0 Hint H32 Hlt).
  assert (Hidx := of_int_ltb _ _ _ Hexact Hlt).
  repeat split; try assumption.
  unfold unchecked_factorial.
  destruct (nth_error factorials (N.to_nat (real_cast (floor k)))) as [f |] eqn:E.
  - now exists f.
  - apply nth_error_None in E. lia.
Qed.

(** *** The result slot and the moments *)

(** [return result;] is only reached after a store: no evaluator hands back
    the slot as it was declared. *)
Lemma slot_is_written_before_it_is_returned dist k :
  pdf dist k <> Indeterminate /\
  cdf dist k <> Indeterminate /\
  cdf_complement dist k <> Indeterminate /\
  quantile dist k <> Indeterminate /\
  quantile_complement dist k <> Indeterminate.
Proof.
  unfold pdf, cdf, cdf_complement, quantile, quantile_complement,
    check_dist_and_k, check_dist, check_prob, check_mean_NZ, check_k.
  repeat split.
  all: repeat match goal with
              | |- context [if ?b then _ else _] => destruct b; simpl
              | |- context [match unchecked_factorial ?i with _ => _ end] =>
                  destruct (unchecked_factorial i); simpl
              end; discriminate.
Qed.

(** C8.  The moment accessors return their closed forms of the stored mean,
    for every element type and every mean, a valid one above zero in
    particular: mode [floor(mean)], variance [mean], skewness
    [1 / sqrt(mean)], kurtosis excess [1 / mean] and kurtosis
    [3 + 1 / mean], each computed with the element type's own operations. *)
Lemma moments_of_mean dist :
  mode dist = floor (mean dist) /\
  variance dist = mean dist /\
  skewness dist = of_int 1 / sqrt (mean dist) /\
  kurtosis_excess dist = of_int 1 / mean dist /\
  kurtosis dist = of_int 3 + of_int 1 / mean dist.
Proof. repeat split. Qed.

(** *** Claims settled for every element type *)

(** C1.  A mean that compares equal to zero is rejected by [check_dist],
    which is [check_mean_NZ]: [pdf], [cdf] and the complemented [cdf] return
    the domain error for the mean, for every [k], and never reach their
    [mean == 0] branch that would return 0, 0 and 1.  Both quantiles fail
    with a domain error for every probability argument. *)
Theorem mean_zero_is_rejected dist k p :
  (mean dist =? of_int 0) = true ->
  pdf dist k = DomainError (Report "pdf" msg_mean_NZ (mean dist)) /\
  cdf dist k = DomainError (Report "cdf" msg_mean_NZ (mean dist)) /\
  cdf_complement dist k
  = DomainError (Report "cdf(complement)" msg_mean_NZ (mean dist)) /\
  (exists e, quantile dist p = DomainError e) /\
  (exists e, quantile_complement dist p = DomainError e).
Proof.
  intros Hz.
  assert (Hbad : isfinite (mean dist) = false \/
                 (mean dist <=? of_int 0) = true)
    by (right; now apply eqb_leb).
  repeat split.
  - eapply pdf_rejected. now apply check_dist_and_k_mean_rejected.
  - eapply cdf_rejected. now apply check_dist_and_k_mean_rejected.
  - eapply cdf_complement_rejected.
    now apply check_dist_and_k_mean_rejected.
  - destruct (quantile_mean_zero dist p Hz) as [H | H]; eauto.
  - destruct (quantile_complement_mean_zero dist p Hz) as [H | H]; eauto.
Qed.

(** The part of C2 that the code keeps: the evaluators that go through
    [check_dist_and_k] answer a non-finite or negative mean with the domain
    error for the mean, whatever [k] is. *)
Lemma invalid_mean_rejected_by_pdf_cdf dist k :
  isfinite (mean dist) = false \/ (mean dist <? of_int 0) = true ->
  pdf dist k = DomainError (Report "pdf" msg_mean_NZ (mean dist)) /\
  cdf dist k = DomainError (Report "cdf" msg_mean_NZ (mean dist)) /\
  cdf_complement dist k
  = DomainError (Report "cdf(complement)" msg_mean_NZ (mean dist)).
Proof.
  intros H.
  assert (Hbad : isfinite (mean dist) = false \/
                 (mean dist <=? of_int 0) = true)
    by (destruct H; [now left | right; now apply ltb_leb]).
  repeat split.
  - eapply pdf_rejected. now apply check_dist_and_k_mean_rejected.
  - eapply cdf_rejected. now apply check_dist_and_k_mean_rejected.
  - eapply cdf_complement_rejected.
    now apply check_dist_and_k_mean_rejected.
Qed.

(** C4.  For a finite mean above zero and a finite [k >= 0], [pdf] returns
    [exp(-mean)] when [k == 0]; when [k] is integral and below
    [max_factorial] it returns [exp(-mean) * pow(mean, k) / f] with [f] the
    factorial-table entry at index [k]; otherwise it returns
    [exp(-mean + k * log(mean) - lgamma(k + 1))].  The table is assumed to
    hold an entry for every index below [max_factorial], an [unsigned]. *)
Theorem pdf_three_branches dist k :
  (max_factorial < 2 ^ 32)%N ->
  (max_factorial <= N.of_nat (List.length factorials))%N ->
  isfinite (mean dist) = true -> (of_int 0 <? mean dist) = true ->
  isfinite k = true -> (of_int 0 <=? k) = true ->
  ((k =? of_int 0) = true -> pdf dist k = Value (exp (- mean dist))) /\
  ((k =? of_int 0) = false ->
   (floor k =? k) = true -> (k <? of_int (Z.of_N max_factorial)) = true ->
   exists f,
     (of_int (Z.of_N (real_cast (floor k))) =? k) = true /\
     unchecked_factorial (real_cast (floor k)) = Some f /\
     pdf dist k = Value (exp (- mean dist) * pow (mean dist) k / f)) /\
  ((k =? of_int 0) = false ->
   (floor k =? k) = false \/ (k <? of_int (Z.of_N max_factorial)) = false ->
   pdf dist k
   = Value (exp (- mean dist + k * log (mean dist)
                   - lgamma (k + of_int 1)))).
Proof.
  intros H32 Hlen Hmf Hmpos Hkf Hk0.
  destruct (positive_mean _ Hmpos) as [Hle Hne].
  assert (Hkneg : (k <? of_int 0) = false) by now apply leb_not_ltb.
  assert (Hchk : check_dist_and_k "pdf" (mean dist) k [] = (true, []))
    by now apply check_dist_and_k_accepts.
  rewrite (pdf_accepted dist k Hchk Hne).
  repeat split.
  - intros Hz. now rewrite Hz.
  - intros Hz Hint Hlt. rewrite Hz, Hint, Hlt. simpl.
    destruct (fast_path_index k H32 Hlen Hkf Hkneg Hint Hlt)
      as (_ & Hexact & f & Hf).
    exists f. rewrite Hf. auto.
  - intros Hz Hslow. rewrite Hz.
    replace ((floor k =? k) && (k <? of_int (Z.of_N max_factorial)))
      with false
      by (destruct Hslow as [H | H]; rewrite H;
          [reflexivity | now rewrite andb_false_r]).
    now rewrite (mul_comm k).
Qed.

(** C5.  For a finite mean above zero and a finite [k >= 0], [cdf] returns
    [exp(-mean)] when [k == 0] and [gamma_Q(k + 1, mean)] when [k > 0]. *)
Theorem cdf_two_branches dist k :
  isfinite (mean dist) = true -> (of_int 0 <? mean dist) = true ->
  isfinite k = true -> (of_int 0 <=? k) = true ->
  ((k =? of_int 0) = true -> cdf dist k = Value (exp (- mean dist))) /\
  ((of_int 0 <? k) = true ->
   cdf dist k = Value (gamma_Q (k + of_int 1) (mean dist))).
Proof.
  intros Hmf Hmpos Hkf Hk0.
  destruct (positive_mean _ Hmpos) as [Hle Hne].
  assert (Hkneg : (k <? of_int 0) = false) by now apply leb_not_ltb.
  assert (Hchk : check_dist_and_k "cdf" (mean dist) k [] = (true, []))
    by now apply check_dist_and_k_accepts.
  rewrite (cdf_accepted dist k Hchk Hne).
  split.
  - intros Hz. now rewrite Hz.
  - intros Hpos. now rewrite (ltb_neq _ _ Hpos).
Qed.

(** C9.  [pdf] never reads the factorial table past its end.  Once the
    checks have passed and neither special case applies, the test
    [floor(k) == k && k < max_factorial] decides: when it holds, the index
    [real_cast(floor(k))] is below [max_factorial], converts back to [k],
    and the lookup yields the entry used in the result; when it fails, the
    result is the log-gamma formula.  The table is assumed to hold an entry
    for every index below [max_factorial], an [unsigned]. *)
Theorem factorial_lookup_in_bounds dist k :
  (max_factorial < 2 ^ 32)%N ->
  (max_factorial <= N.of_nat (List.length factorials))%N ->
  (forall i, pdf dist k <> TableOverrun i) /\
  (check_dist_and_k "pdf" (mean dist) k [] = (true, []) ->
   (mean dist =? of_int 0) = false -> (k =? of_int 0) = false ->
   if (floor k =? k) && (k <? of_int (Z.of_N max_factorial))
   then (real_cast (floor k) < max_factorial)%N /\
        (of_int (Z.of_N (real_cast (floor k))) =? k) = true /\
        exists f,
          unchecked_factorial (real_cast (floor k)) = Some f /\
          pdf dist k = Value (exp (- mean dist) * pow (mean dist) k / f)
   else pdf dist k
        = Value (exp (- mean dist + log (mean dist) * k
                     - lgamma (k + of_int 1)))).
Proof.
  intros H32 Hlen.
  assert (Hfast :
    check_dist_and_k "pdf" (mean dist) k [] = (true, []) ->
    (mean dist =? of_int 0) = false -> (k =? of_int 0) = false ->
    if (floor k =? k) && (k <? of_int (Z.of_N max_factorial))
    then (real_cast (floor k) < max_factorial)%N /\
         (of_int (Z.of_N (real_cast (floor k))) =? k) = true /\
         exists f,
           unchecked_factorial (real_cast (floor k)) = Some f /\
           pdf dist k = Value (exp (- mean dist) * pow (mean dist) k / f)
    else pdf dist k
         = Value (exp (- mean dist + log (mean dist) * k
                      - lgamma (k + of_int 1)))).
  { intros Hchk Hne Hkz.
    rewrite (pdf_accepted dist k Hchk Hne), Hkz.
    destruct (check_dist_and_k_true_inv _ _ _ _ Hchk)
      as (_ & _ & Hkf & Hkneg & _).
    destruct ((floor k =? k) && (k <? of_int (Z.of_N max_factorial)))
      eqn:Htest; [| reflexivity].
    apply andb_true_iff in Htest. destruct Htest as [Hint Hlt].
    destruct (fast_path_index k H32 Hlen Hkf Hkneg Hint Hlt)
      as (Hidx & Hexact & f & Hf).
    repeat split; try assumption.
    exists f. now rewrite Hf. }
  split; [| exact Hfast].
  intros i Hover.
  destruct (check_dist_and_k "pdf" (mean dist) k []) as [ok result] eqn:Hchk.
  destruct ok.
  - destruct (check_dist_and_k_true_inv _ _ _ _ Hchk) as (_ & _ & _ & _ & ->).
    unfold pdf in Hover. rewrite Hchk in Hover. simpl in Hover.
    destruct (mean dist =? of_int 0) eqn:Hne; [discriminate |].
    destruct (k =? of_int 0) eqn:Hkz; [discriminate |].
    specialize (Hfast eq_refl eq_refl eq_refl).
    destruct ((floor k =? k) && (k <? of_int (Z.of_N max_factorial))).
    + destruct Hfast as (_ & _ & f & Hf & _).
      rewrite Hf in Hover. discriminate.
    + discriminate.
  - unfold pdf in Hover. rewrite Hchk in Hover. simpl in Hover.
    unfold read in Hover. destruct result; discriminate.
Qed.

(** C10, as the code has it.  [check_dist_and_k] and [check_dist_and_prob]
    validate the mean first: when the mean is rejected the slot receives
    one store, the report for the mean, and the second argument is not
    looked at.  [pdf], [cdf] and the complemented [cdf] are the evaluators
    that use [check_dist_and_k], and they return that report for every [k],
    a rejected one included.  The two quantiles do not use
    [check_dist_and_prob]: they validate the probability first, and a
    rejected probability is what they report. *)
Theorem mean_is_validated_first dist k p (f : string) result :
  isfinite (mean dist) = false \/ (mean dist <=? of_int 0) = true ->
  (check_dist_and_k f (mean dist) k result
   = (false, Report f msg_mean_NZ (mean dist) :: result) /\
   check_dist_and_prob f (mean dist) p result
   = (false, Report f msg_mean_NZ (mean dist) :: result) /\
   pdf dist k = DomainError (Report "pdf" msg_mean_NZ (mean dist)) /\
   cdf dist k = DomainError (Report "cdf" msg_mean_NZ (mean dist)) /\
   cdf_complement dist k
   = DomainError (Report "cdf(complement)" msg_mean_NZ (mean dist))) /\
  (isfinite p = false \/ (p <? of_int 0) = true \/ (p >? of_int 1) = true ->
   quantile dist p = DomainError (Report "quantile" msg_prob p) /\
   quantile_complement dist p
   = DomainError (Report "quantile(complement)" msg_prob p)).
Proof.
  intros Hbad. split; [repeat split |].
  - now apply check_dist_and_k_mean_rejected.
  - now apply check_dist_and_prob_mean_rejected.
  - eapply pdf_rejected. now apply check_dist_and_k_mean_rejected.
  - eapply cdf_rejected. now apply check_dist_and_k_mean_rejected.
  - eapply cdf_complement_rejected.
    now apply check_dist_and_k_mean_rejected.
  - intros Hp. split;
      [now apply quantile_prob_rejected
      | now apply quantile_complement_prob_rejected].
Qed.

(** C3, as the code has it.  For a finite mean above zero and a probability
    [p] in [0, 1], [quantile] decides by the comparison
    [p <= exp(-mean)].  When it holds the result is 0, and [cdf] at 0 is
    [exp(-mean)], the very number [p] was found not to exceed; one below,
    at [0 - 1], [cdf] is the domain error for [k].  When it fails the result
    is [k = gamma_Q_inva(mean, p) - 1] as the collaborator gives it, with no
    rounding to an integer; [cdf] at [k] is [gamma_Q(k + 1, mean)] when [k]
    is finite and above zero, and [cdf] at [k - 1] is
    [gamma_Q((k - 1) + 1, mean)] when [k - 1] is finite and above zero, and
    the domain error for [k - 1] when [k - 1] is below zero.  How these
    compare with [p] is the collaborators' accuracy. *)
Theorem quantile_cdf_round_trip dist p :
  isfinite (mean dist) = true -> (of_int 0 <? mean dist) = true ->
  isfinite p = true -> (of_int 0 <=? p) = true -> (p <=? of_int 1) = true ->
  ((p <=? exp (- mean dist)) = true ->
   quantile dist p = Value (of_int 0) /\
   (isfinite (of_int 0) = true -> (of_int 0 =? of_int 0) = true ->
    cdf dist (of_int 0) = Value (exp (- mean dist))) /\
   ((of_int 0 - of_int 1 <? of_int 0) = true ->
    cdf dist (of_int 0 - of_int 1)
    = DomainError (Report "cdf" msg_k (of_int 0 - of_int 1)))) /\
  ((p <=? exp (- mean dist)) = false ->
   quantile dist p = Value (gamma_Q_inva (mean dist) p - of_int 1) /\
   forall k, k = gamma_Q_inva (mean dist) p - of_int 1 ->
     (isfinite k = true -> (of_int 0 <? k) = true ->
      cdf dist k = Value (gamma_Q (k + of_int 1) (mean dist))) /\
     (isfinite (k - of_int 1) = true -> (of_int 0 <? k - of_int 1) = true ->
      cdf dist (k - of_int 1)
      = Value (gamma_Q (k - of_int 1 + of_int 1) (mean dist))) /\
     ((k - of_int 1 <? of_int 0) = true ->
      cdf dist (k - of_int 1)
      = DomainError (Report "cdf" msg_k (k - of_int 1)))).
Proof.
  intros Hmf Hmpos Hpf Hp0 Hp1.
  destruct (positive_mean _ Hmpos) as [Hle Hne].
  assert (Hchk : check_prob "quantile" p [] = (true, []))
    by (apply check_prob_accepts; auto using leb_not_ltb).
  assert (Hq := quantile_mean_nonzero dist p Hchk Hne).
  assert (Hpos : forall k, isfinite k = true -> (of_int 0 <? k) = true ->
                 cdf dist k = Value (gamma_Q (k + of_int 1) (mean dist))).
  { intros k Hkf Hk.
    rewrite cdf_accepted; auto.
    - now rewrite (ltb_neq _ _ Hk).
    - apply check_dist_and_k_accepts; auto.
      apply leb_not_ltb. now apply ltb_leb. }
  assert (Hneg : forall k, (k <? of_int 0) = true ->
                 cdf dist k = DomainError (Report "cdf" msg_k k)).
  { intros k Hk. eapply cdf_rejected.
    apply check_dist_and_k_k_rejected; auto. }
  split; intros Hcmp; rewrite Hcmp in Hq.
  - repeat split; auto.
    intros H0f H0e.
    rewrite cdf_accepted; auto.
    + now rewrite H0e.
    + apply check_dist_and_k_accepts; auto.
      apply leb_not_ltb. now apply eqb_leb.
  - split; [exact Hq |]. intros k ->. repeat split; auto.
Qed.

(** C7.  For a mean above zero and a probability [q] in [0, 1] the
    complemented quantile decides by the literal comparison
    [-q <= expm1(-mean)]: it returns 0 when the comparison holds and
    [gamma_P_inva(mean, q) - 1] when it fails. *)
Theorem quantile_complement_literal_comparison dist q :
  (of_int 0 <? mean dist) = true ->
  isfinite q = true -> (of_int 0 <=? q) = true -> (q <=? of_int 1) = true ->
  ((- q <=? expm1 (- mean dist)) = true ->
   quantile_complement dist q = Value (of_int 0)) /\
  ((- q <=? expm1 (- mean dist)) = false ->
   quantile_complement dist q
   = Value (gamma_P_inva (mean dist) q - of_int 1)).
Proof.
  intros Hmpos Hqf Hq0 Hq1.
  destruct (positive_mean _ Hmpos) as [_ Hne].
  assert (Hchk : check_prob "quantile(complement)" q [] = (true, []))
    by (apply check_prob_accepts; auto using leb_not_ltb).
  rewrite (quantile_complement_mean_nonzero dist q Hchk Hne).
  split; intros Hcmp; now rewrite Hcmp.
Qed.

End PoissonFacts.

(** * Properties over the exact element type

    Stated for [xreal] and arbitrary collaborators: an evaluation at inputs
    that floating point represents exactly, and an identity that the
    specification asks for up to rounding. *)

Abbreviation Rexp := Rtrigo_def.exp (only parsing).
Abbreviation Rsqrt := R_sqrt.sqrt (only parsing).

Lemma exp_minus_one_bounds : (1 / 4 < Rexp (- (1)) < 1 / 2)%R.
Proof.
  assert (Hup := exp_le_3).
  assert (Hlow : (1 + 1 < Rexp 1)%R) by (apply exp_ineq1; lra).
  rewrite exp_Ropp. split.
  - apply Rlt_le_trans with (/ 3)%R; [lra |].
    apply Rinv_le_contravar; lra.
  - replace (1 / 2)%R with (/ 2)%R by lra.
    apply Rinv_lt_contravar; lra.
Qed.

Section Exact.

Context {SP : Special xreal}.
Local Open Scope string_scope.
Local Open Scope R_scope.

(** Reduces a comparison between finite values to the real comparison. *)
Ltac x_cmp := cbn [cmp2 lift1 lift2 of_int ltb leb eqb opp add sub mul exp
                   expm1 isfinite x_isfinite xreal_RealType mean m_l];
              try reflexivity; r_prop; try lra.

Lemma x_checks_accept (f : string) (l k : R) :
  0 < l -> 0 <= k ->
  check_dist_and_k f (Fin l) (Fin k) [] = (true, []).
Proof.
  intros Hl Hk. apply check_dist_and_k_accepts; x_cmp.
Qed.

Lemma x_prob_accepts (f : string) (p : R) :
  0 <= p <= 1 -> check_prob f (Fin p) [] = (true, []).
Proof.
  intros Hp. apply check_prob_accepts; x_cmp.
Qed.

Lemma x_mean_nonzero (l : R) :
  l <> 0 -> (mean (Poisson (Fin l)) =? of_int 0)%rt = false.
Proof. intros Hl. x_cmp. Qed.

Lemma x_quantile_high (l p : R) :
  0 < l -> 0 <= p <= 1 -> Rexp (- l) < p ->
  quantile (Poisson (Fin l)) (Fin p)
  = Value (sub (gamma_Q_inva (Fin l) (Fin p)) (of_int 1)).
Proof.
  intros Hl Hp Hlt.
  rewrite quantile_mean_nonzero;
    [| apply x_prob_accepts; lra | apply x_mean_nonzero; lra].
  replace (Fin p <=? exp (- mean (Poisson (Fin l))))%rt with false
    by (symmetry; x_cmp).
  reflexivity.
Qed.


Lemma x_cdf_negative (l k : R) :
  0 < l -> k < 0 ->
  cdf (Poisson (Fin l)) (Fin k) = DomainError (Report "cdf" msg_k (Fin k)).
Proof.
  intros Hl Hk. eapply cdf_rejected.
  apply check_dist_and_k_k_rejected; [x_cmp | x_cmp |].
  left. x_cmp.
Qed.

(** C2, at the failing input.  With mean -1 and probability 1/2 both
    quantiles skip the validation of the mean, whose guard is [mean == 0],
    and return the value 0 where a domain error is due. *)
Theorem quantile_accepts_negative_mean :
  quantile (Poisson (Fin (- 1))) (Fin (1 / 2)) = Value (Fin 0) /\
  quantile_complement (Poisson (Fin (- 1))) (Fin (1 / 2)) = Value (Fin 0).
Proof.
  assert (Hlow : 1 + 1 < Rexp 1) by (apply exp_ineq1; lra).
  split.
  - rewrite quantile_mean_nonzero;
      [| apply x_prob_accepts; lra | apply x_mean_nonzero; lra].
    replace (Fin (1 / 2) <=? exp (- mean (Poisson (Fin (- 1)))))%rt
      with true; [reflexivity |].
    symmetry. x_cmp. replace (- -1) with 1 by lra. lra.
  - rewrite quantile_complement_mean_nonzero;
      [| apply x_prob_accepts; lra | apply x_mean_nonzero; lra].
    replace (- Fin (1 / 2) <=? expm1 (- mean (Poisson (Fin (- 1)))))%rt
      with true; [reflexivity |].
    symmetry. x_cmp. replace (- -1) with 1 by lra. lra.
Qed.

(** C6.  In exact arithmetic, for a mean above zero and [k >= 0], [cdf] and
    the complemented [cdf] both return values and these add up to 1.  At
    [k = 0] the complement is [-expm1(-mean)]; for [k > 0] it is
    [gamma_P(k + 1, mean)], and the sum is the collaborators' identity
    [gamma_Q + gamma_P = 1] at that point, which is assumed. *)
Theorem cdf_plus_complement_is_one (l k : R) :
  0 < l -> 0 <= k ->
  (k <> 0 ->
   add (gamma_Q (Fin (k + 1)) (Fin l)) (gamma_P (Fin (k + 1)) (Fin l))
   = Fin 1) ->
  exists c cc : R,
    cdf (Poisson (Fin l)) (Fin k) = Value (Fin c) /\
    cdf_complement (Poisson (Fin l)) (Fin k) = Value (Fin cc) /\
    c + cc = 1 /\
    (k = 0 -> c = Rexp (- l) /\ cc = - (Rexp (- l) - 1)) /\
    (k <> 0 -> gamma_Q (Fin (k + 1)) (Fin l) = Fin c /\
               gamma_P (Fin (k + 1)) (Fin l) = Fin cc).
Proof.
  intros Hl Hk HPQ.
  rewrite cdf_accepted;
    [| apply x_checks_accept; lra | apply x_mean_nonzero; lra].
  rewrite cdf_complement_accepted;
    [| apply x_checks_accept; lra | apply x_mean_nonzero; lra].
  destruct (Req_dec_T k 0) as [Hz | Hnz].
  - subst k.
    replace (Fin 0 =? of_int 0)%rt with true by (symmetry; x_cmp).
    exists (Rexp (- l)), (- (Rexp (- l) - 1)).
    repeat split; try reflexivity; try lra.
    all: intros Hc; now contradiction Hc.
  - replace (Fin k =? of_int 0)%rt with false by (symmetry; x_cmp).
    specialize (HPQ Hnz).
    cbn [add of_int xreal_RealType lift2 mean m_l] in *.
    destruct (gamma_Q (Fin (k + 1)) (Fin l)) as [c |]; [| discriminate].
    destruct (gamma_P (Fin (k + 1)) (Fin l)) as [cc |]; [| discriminate].
    exists c, cc. injection HPQ as HPQ.
    repeat split; try reflexivity; try lra.
    all: intros Hc; now contradiction Hnz.
Qed.

End Exact.

(** * The statements at concrete inputs

    Element type [xreal], collaborators [lattice_Special]. *)

Lemma length_factorial_table (len : nat) (i f : Z) :
  List.length (factorial_table i f len) = len.
Proof.
  revert i f. induction len as [| len IH]; intros i f; simpl;
    [reflexivity | now rewrite IH].
Qed.

Lemma lattice_table_size :
  (@max_factorial _ lattice_Special < 2 ^ 32)%N /\
  (@max_factorial _ lattice_Special
   <= N.of_nat (List.length (@factorials _ lattice_Special)))%N.
Proof.
  cbn [max_factorial factorials lattice_Special].
  rewrite length_factorial_table. split; [reflexivity | lia].
Qed.

Lemma x_gamma_Q_integer (n : nat) (x : R) :
  (0 < n)%nat -> (0 <= x)%R ->
  x_gamma_Q (Fin (INR n)) (Fin x) = Fin (Rexp (- x) * poisson_sum x n).
Proof.
  intros Hn Hx. unfold x_gamma_Q.
  assert (Hfl : Z.to_nat (Zfloor (INR n)) = n)
    by (rewrite INR_IZR_INZ, ZfloorZ; apply Nat2Z.id).
  rewrite Hfl.
  replace (Rleb 0 (INR n)) with true
    by (symmetry; apply Rleb_true, pos_INR).
  replace (Rleb 0 x) with true by (symmetry; now apply Rleb_true).
  cbn [andb]. f_equal. ring.
Qed.

Lemma shape_search_step (x p : R) (n fuel : nat) :
  shape_search x p n (S fuel) =
  if Rltb p (Rexp (- x) * poisson_sum x (S n))
  then Fin (INR n
            + (p - Rexp (- x) * poisson_sum x n)
              / (Rexp (- x) * (x ^ n / INR (fact n))))
  else shape_search x p (S n) fuel.
Proof.
  reflexivity.
Qed.

(** The model's [gamma_Q_inva] is an inverse of its [gamma_Q] in the shape:
    whatever shape the search returns, Q there is [p]. *)
Lemma shape_search_inverts (x p : R) (fuel n : nat) (a : R) :
  (0 < x)%R -> (Rexp (- x) * poisson_sum x n <= p)%R ->
  shape_search x p n fuel = Fin a ->
  x_gamma_Q (Fin a) (Fin x) = Fin p.
Proof.
  intros Hx. revert n.
  induction fuel as [| fuel IH]; intros n Hlow Hs; [discriminate Hs |].
  rewrite shape_search_step in Hs.
  destruct (Rltb p (Rexp (- x) * poisson_sum x (S n))) eqn:Hcmp.
  - apply Rltb_true in Hcmp. cbn [poisson_sum] in Hcmp.
    injection Hs as Ha.
    assert (He : (0 < Rexp (- x))%R) by apply exp_pos.
    assert (Hc : (0 < x ^ n / INR (fact n))%R)
      by (apply Rdiv_lt_0_compat; [now apply pow_lt | apply INR_fact_lt_0]).
    remember (Rexp (- x)) as e eqn:Ee.
    remember (x ^ n / INR (fact n))%R as c eqn:Ec.
    remember (poisson_sum x n) as s eqn:Es.
    remember ((p - e * s) / (e * c))%R as t eqn:Et.
    assert (Ht : (t * (e * c) = p - e * s)%R)
      by (subst t; field; split; lra).
    assert (Hec : (0 < e * c)%R) by now apply Rmult_lt_0_compat.
    assert (Ht0 : (0 <= t)%R) by nra.
    assert (Ht1 : (t < 1)%R) by nra.
    assert (Hfl : Zfloor a = Z.of_nat n).
    { apply Zfloor_eq. rewrite <- INR_IZR_INZ. lra. }
    unfold x_gamma_Q. rewrite Hfl, Nat2Z.id.
    replace (Rleb 0 a) with true
      by (symmetry; apply Rleb_true; generalize (pos_INR n); lra).
    replace (Rleb 0 x) with true by (symmetry; apply Rleb_true; lra).
    cbn [andb]. rewrite <- Ee, <- Ec, <- Es. f_equal.
    replace (a - INR n)%R with t by lra. nra.
  - apply Rltb_false in Hcmp. now apply (IH (S n)).
Qed.

(** At mean 1 the model's inverse of Q at 1/2 lies strictly between the
    shapes 1 and 2, as the inverse of the true function does: Q(1, 1) = 1/e
    is below 1/2 and Q(2, 1) = 2/e is above. *)
Lemma model_inverse_at_half :
  exists a : R,
    x_gamma_Q_inva (Fin 1) (Fin (1 / 2)) = Fin a /\
    (1 < a < 2)%R /\
    x_gamma_Q (Fin a) (Fin 1) = Fin (1 / 2).
Proof.
  destruct exp_minus_one_bounds as [Hlow Hup].
  assert (Hs : shape_search 1 (1 / 2) 0 171
               = Fin (INR 1
                      + (1 / 2 - Rexp (- (1)) * poisson_sum 1 1)
                        / (Rexp (- (1)) * (1 ^ 1 / INR (fact 1))))).
  { rewrite shape_search_step.
    replace (Rltb (1 / 2) (Rexp (- (1)) * poisson_sum 1 1)) with false
      by (symmetry; apply Rltb_false; simpl; lra).
    rewrite shape_search_step.
    replace (Rltb (1 / 2) (Rexp (- (1)) * poisson_sum 1 2)) with true
      by (symmetry; apply Rltb_true; simpl; lra).
    reflexivity. }
  eexists. split; [| split].
  - unfold x_gamma_Q_inva.
    replace (Rltb 0 1) with true by (symmetry; apply Rltb_true; lra).
    replace (Rleb 0 (1 / 2)) with true by (symmetry; apply Rleb_true; lra).
    cbn [andb]. exact Hs.
  - simpl.
    replace ((1 / 2 - Rexp (- (1)) * (0 + 1 / 1))
             / (Rexp (- (1)) * (1 * 1 / 1)))%R
      with ((1 / 2 - Rexp (- (1))) / Rexp (- (1)))%R by (field; lra).
    remember (Rexp (- (1))) as u.
    assert (Ht : ((1 / 2 - u) / u * u = 1 / 2 - u)%R) by (field; lra).
    split; nra.
  - apply (shape_search_inverts 171 0); [lra | simpl; lra | exact Hs].
Qed.

(** The round trip fails at mean 1 and p = 1/2 for every collaborator whose
    inverse lies strictly between the shapes 1 and 2 there: the quantile is
    then strictly between 0 and 1, so it is not an integer, and [cdf] one
    below it is the domain error for a negative [k]. *)
Lemma round_trip_fails_between_shapes (SP : Special xreal) (a : R) :
  @gamma_Q_inva _ SP (Fin 1) (Fin (1 / 2)) = Fin a -> (1 < a < 2)%R ->
  (exists k : R,
     quantile (Poisson (Fin 1)) (Fin (1 / 2)) = Value (Fin k) /\
     (0 < k < 1)%R /\ IZR (Zfloor k) <> k /\
     cdf (Poisson (Fin 1)) (sub (Fin k) (of_int 1))
     = DomainError (Report "cdf"%string msg_k (Fin (k - 1)))) /\
  ~ @quantile_round_trip SP 1 (1 / 2).
Proof.
  intros Ha Hb.
  destruct exp_minus_one_bounds as [_ Hup].
  assert (Hq : quantile (Poisson (Fin 1)) (Fin (1 / 2))
               = Value (Fin (a - 1))).
  { rewrite (x_quantile_high (SP := SP)) by lra. now rewrite Ha. }
  assert (Hfl : Zfloor (a - 1) = 0%Z) by (apply Zfloor_eq; lra).
  assert (Hni : IZR (Zfloor (a - 1)) <> (a - 1)%R) by (rewrite Hfl; lra).
  split.
  - exists (a - 1)%R. repeat split; try lra; try assumption.
    apply (x_cdf_negative (SP := SP)); lra.
  - intros (k & Hk & Hint & _).
    rewrite Hq in Hk. injection Hk as <-. contradiction.
Qed.

Section Concrete.

Local Open Scope string_scope.
Local Open Scope R_scope.

(** Mean 0, three events, probability 1/2. *)
Lemma mean_zero_is_rejected_witness :
  (mean (Poisson (Fin 0)) =? of_int 0)%rt = true /\
  pdf (Poisson (Fin 0)) (Fin 3)
  = DomainError (Report "pdf" msg_mean_NZ (Fin 0)) /\
  cdf (Poisson (Fin 0)) (Fin 3)
  = DomainError (Report "cdf" msg_mean_NZ (Fin 0)) /\
  cdf_complement (Poisson (Fin 0)) (Fin 3)
  = DomainError (Report "cdf(complement)" msg_mean_NZ (Fin 0)) /\
  (exists e, quantile (Poisson (Fin 0)) (Fin (1 / 2)) = DomainError e) /\
  (exists e,
     quantile_complement (Poisson (Fin 0)) (Fin (1 / 2)) = DomainError e).
Proof.
  assert (Hz : (mean (Poisson (Fin 0)) =? of_int 0)%rt = true)
    by (apply Reqb_true; reflexivity).
  split; [exact Hz |].
  exact (mean_zero_is_rejected (Poisson (Fin 0)) (Fin 3) (Fin (1 / 2)) Hz).
Defined.

Lemma integral_three :
  (floor (Fin 3) =? Fin 3)%rt = true /\
  (Fin 3 <? of_int (Z.of_N (@max_factorial _ lattice_Special)))%rt = true /\
  (Fin 3 =? of_int 0)%rt = false /\
  @unchecked_factorial _ lattice_Special (real_cast (floor (Fin 3)))
  = Some (Fin 6).
Proof.
  assert (Hfl : Zfloor 3 = 3%Z) by apply ZfloorZ.
  repeat split.
  - cbn [floor xreal_RealType x_floor lift1 eqb cmp2]. rewrite Hfl.
    now apply Reqb_true.
  - cbn [ltb xreal_RealType cmp2 of_int max_factorial lattice_Special].
    apply Rltb_true. change (Z.of_N 170) with 170%Z. lra.
  - cbn [eqb xreal_RealType cmp2 of_int]. apply Reqb_false. lra.
  - unfold unchecked_factorial.
    cbn [floor xreal_RealType x_floor lift1 real_cast x_real_cast].
    rewrite Hfl, Hfl. reflexivity.
Qed.

(** Mean 2 and three events: the factorial path, with table entry 3! = 6. *)
Lemma pdf_three_branches_witness :
  ((@max_factorial _ lattice_Special < 2 ^ 32)%N /\
   (@max_factorial _ lattice_Special
    <= N.of_nat (List.length (@factorials _ lattice_Special)))%N) /\
  (isfinite (Fin 2) = true /\ (of_int 0 <? Fin 2)%rt = true) /\
  (isfinite (Fin 3) = true /\ (of_int 0 <=? Fin 3)%rt = true) /\
  exists f,
    @unchecked_factorial _ lattice_Special (real_cast (floor (Fin 3)))
    = Some f /\
    pdf (Poisson (Fin 2)) (Fin 3)
    = Value (exp (- Fin 2) * pow (Fin 2) (Fin 3) / f)%rt.
Proof.
  destruct lattice_table_size as [H32 Hlen].
  assert (Hm : (of_int 0 <? Fin 2)%rt = true) by (apply Rltb_true; lra).
  assert (Hk : (of_int 0 <=? Fin 3)%rt = true) by (apply Rleb_true; lra).
  destruct integral_three as (Hint & Hlt & Hnz & _).
  repeat split; try assumption.
  assert (Hmf : isfinite (mean (Poisson (Fin 2))) = true) by reflexivity.
  assert (Hkf : isfinite (Fin 3) = true) by reflexivity.
  destruct (pdf_three_branches (Poisson (Fin 2)) (Fin 3)
              H32 Hlen Hmf Hm Hkf Hk) as (_ & Hfast & _).
  destruct (Hfast Hnz Hint Hlt) as (f & _ & Hf & Hpdf).
  exists f. split; assumption.
Defined.

(** Mean 1 and one event. *)
Lemma cdf_two_branches_witness :
  (isfinite (Fin 1) = true /\ (of_int 0 <? Fin 1)%rt = true) /\
  (isfinite (Fin 1) = true /\ (of_int 0 <=? Fin 1)%rt = true) /\
  cdf (Poisson (Fin 1)) (Fin 1)
  = Value (gamma_Q (Fin 1 + of_int 1)%rt (Fin 1)).
Proof.
  assert (Hm : (of_int 0 <? Fin 1)%rt = true) by (apply Rltb_true; lra).
  assert (Hk : (of_int 0 <=? Fin 1)%rt = true) by (apply Rleb_true; lra).
  repeat split; try assumption.
  assert (Hmf : isfinite (mean (Poisson (Fin 1))) = true) by reflexivity.
  assert (Hkf : isfinite (Fin 1) = true) by reflexivity.
  destruct (cdf_two_branches (SP := lattice_Special) (Poisson (Fin 1)) (Fin 1)
              Hmf Hm Hkf Hk) as [_ Hpos].
  exact (Hpos Hm).
Defined.

(** Mean 1 and one event, where [gamma_Q(2, 1) = 2/e]. *)
Lemma cdf_plus_complement_is_one_witness :
  0 < 1 /\ 0 <= 1 /\
  exists c cc : R,
    cdf (Poisson (Fin 1)) (Fin 1) = Value (Fin c) /\
    cdf_complement (Poisson (Fin 1)) (Fin 1) = Value (Fin cc) /\
    c + cc = 1.
Proof.
  assert (Hl : 0 < 1) by lra.
  assert (Hk : 0 <= 1) by lra.
  assert (HPQ : 1 <> 0 ->
                add (gamma_Q (Fin (1 + 1)) (Fin 1))
                    (gamma_P (Fin (1 + 1)) (Fin 1)) = Fin 1).
  { intros _.
    cbn [gamma_Q gamma_P lattice_Special]. unfold x_gamma_P.
    change (1 + 1) with (INR 2).
    rewrite x_gamma_Q_integer by (lia || lra).
    cbn [add xreal_RealType lift2]. f_equal. ring. }
  split; [exact Hl |]. split; [exact Hk |].
  destruct (cdf_plus_complement_is_one (SP := lattice_Special) Hl Hk HPQ)
    as (c & cc & Hc & Hcc & Hsum & _).
  exists c, cc. repeat split; assumption.
Defined.

(** Mean 1 and three events. *)
Lemma factorial_lookup_in_bounds_witness :
  ((@max_factorial _ lattice_Special < 2 ^ 32)%N /\
   (@max_factorial _ lattice_Special
    <= N.of_nat (List.length (@factorials _ lattice_Special)))%N) /\
  (forall i, pdf (Poisson (Fin 1)) (Fin 3) <> TableOverrun i) /\
  (real_cast (floor (Fin 3)) < @max_factorial _ lattice_Special)%N.
Proof.
  destruct lattice_table_size as [H32 Hlen].
  split; [split; assumption |].
  destruct (factorial_lookup_in_bounds (Poisson (Fin 1)) (Fin 3) H32 Hlen)
    as [Hsafe Hfast].
  split; [exact Hsafe |].
  destruct integral_three as (Hint & Hlt & Hnz & _).
  assert (Hchk : check_dist_and_k "pdf" (mean (Poisson (Fin 1))) (Fin 3) []
                 = (true, []))
    by (apply x_checks_accept; lra).
  assert (Hne : (mean (Poisson (Fin 1)) =? of_int 0)%rt = false)
    by (apply x_mean_nonzero; lra).
  specialize (Hfast Hchk Hne Hnz).
  rewrite Hint, Hlt in Hfast. exact (proj1 Hfast).
Defined.

(** A non-finite mean together with k = -1 and with p = 2. *)
Lemma mean_is_validated_first_witness :
  (isfinite (mean (Poisson NaN)) = false \/
   (mean (Poisson NaN) <=? of_int 0)%rt = true) /\
  check_dist_and_k "pdf" NaN (Fin (- 1)) []
  = (false, [Report "pdf" msg_mean_NZ NaN]) /\
  check_dist_and_prob "pdf" NaN (Fin 2) []
  = (false, [Report "pdf" msg_mean_NZ NaN]) /\
  pdf (Poisson NaN) (Fin (- 1)) = DomainError (Report "pdf" msg_mean_NZ NaN) /\
  quantile (Poisson NaN) (Fin 2)
  = DomainError (Report "quantile" msg_prob (Fin 2)).
Proof.
  assert (Hbad : isfinite (mean (Poisson NaN)) = false \/
                 (mean (Poisson NaN) <=? of_int 0)%rt = true)
    by (left; reflexivity).
  assert (Hp : isfinite (Fin 2) = false \/ (Fin 2 <? of_int 0)%rt = true \/
               (Fin 2 >? of_int 1)%rt = true)
    by (right; right; apply Rltb_true; lra).
  split; [exact Hbad |].
  destruct (mean_is_validated_first (SP := lattice_Special)
              (Poisson NaN) (Fin (- 1)) (Fin 2) "pdf" [] Hbad)
    as ((Hk & Hprob & Hpdf & _) & Hq).
  destruct (Hq Hp) as [Hquant _].
  repeat split; assumption.
Defined.

(** C10 as worded fails for the quantiles: with mean 0 and p = 2 both
    arguments are rejected, and the error returned is the one for the
    probability, which is validated first. *)
Lemma quantile_reports_probability_first :
  check_mean_NZ "quantile" (Fin 0) [] =
    (false, [Report "quantile" msg_mean_NZ (Fin 0)]) /\
  check_prob "quantile" (Fin 2) [] =
    (false, [Report "quantile" msg_prob (Fin 2)]) /\
  quantile (Poisson (Fin 0)) (Fin 2)
  = DomainError (Report "quantile" msg_prob (Fin 2)) /\
  quantile (Poisson (Fin 0)) (Fin 2)
  <> DomainError (Report "quantile" msg_mean_NZ (Fin 0)) /\
  quantile_complement (Poisson (Fin 0)) (Fin 2)
  = DomainError (Report "quantile(complement)" msg_prob (Fin 2)).
Proof.
  assert (Hp : isfinite (Fin 2) = false \/ (Fin 2 <? of_int 0)%rt = true \/
               (of_int 1 <? Fin 2)%rt = true)
    by (right; right; apply Rltb_true; lra).
  assert (Hq := quantile_prob_rejected (SP := lattice_Special)
                  (Poisson (Fin 0)) (Fin 2) Hp).
  repeat split.
  - apply check_mean_NZ_rejects. right. apply Rleb_true. lra.
  - now apply check_prob_rejects.
  - exact Hq.
  - rewrite Hq. intros H. injection H as H. discriminate H.
  - now apply quantile_complement_prob_rejected.
Qed.

(** C3 as the specification words it fails at mean 1 and p = 1/2, inputs
    that floating point holds exactly: the quantile is the collaborator's
    inverse minus 1, a number strictly between 0 and 1, so it is not an
    integer, and [cdf] one below it is a domain error.  The collaborators
    are the model's; the lemma [round_trip_fails_between_shapes] shows the
    same for any others. *)
Lemma quantile_round_trip_fails :
  (exists k : R,
     quantile (Poisson (Fin 1)) (Fin (1 / 2)) = Value (Fin k) /\
     0 < k < 1 /\ IZR (Zfloor k) <> k /\
     cdf (Poisson (Fin 1)) (sub (Fin k) (of_int 1))
     = DomainError (Report "cdf" msg_k (Fin (k - 1)))) /\
  ~ quantile_round_trip 1 (1 / 2).
Proof.
  destruct model_inverse_at_half as (a & Ha & Hb & _).
  exact (round_trip_fails_between_shapes lattice_Special Ha Hb).
Qed.

(** Mean 1 and p = 1/2, above 1/e: the quantile is the model's inverse
    minus 1, and [cdf] there gives 1/2 back. *)
Lemma quantile_cdf_round_trip_witness :
  (isfinite (mean (Poisson (Fin 1))) = true /\
   (of_int 0 <? mean (Poisson (Fin 1)))%rt = true) /\
  (isfinite (Fin (1 / 2)) = true /\ (of_int 0 <=? Fin (1 / 2))%rt = true /\
   (Fin (1 / 2) <=? of_int 1)%rt = true) /\
  exists k : R,
    quantile (Poisson (Fin 1)) (Fin (1 / 2)) = Value (Fin k) /\
    cdf (Poisson (Fin 1)) (Fin k) = Value (Fin (1 / 2)).
Proof.
  destruct exp_minus_one_bounds as [_ Hup].
  assert (Hmf : isfinite (mean (Poisson (Fin 1))) = true) by reflexivity.
  assert (Hm : (of_int 0 <? mean (Poisson (Fin 1)))%rt = true)
    by (apply Rltb_true; lra).
  assert (Hpf : isfinite (Fin (1 / 2)) = true) by reflexivity.
  assert (Hp0 : (of_int 0 <=? Fin (1 / 2))%rt = true)
    by (apply Rleb_true; lra).
  assert (Hp1 : (Fin (1 / 2) <=? of_int 1)%rt = true)
    by (apply Rleb_true; lra).
  split; [split; assumption |]. split; [repeat split; assumption |].
  destruct (quantile_cdf_round_trip (SP := lattice_Special)
              (Poisson (Fin 1)) (Fin (1 / 2)) Hmf Hm Hpf Hp0 Hp1)
    as [_ Hhigh].
  assert (Hcmp : (Fin (1 / 2) <=? exp (- mean (Poisson (Fin 1))))%rt = false)
    by (apply Rleb_false; lra).
  destruct (Hhigh Hcmp) as [Hq Hcdf].
  destruct model_inverse_at_half as (a & Ha & Hb & HQ).
  change (gamma_Q_inva (mean (Poisson (Fin 1))) (Fin (1 / 2)))
    with (x_gamma_Q_inva (Fin 1) (Fin (1 / 2))) in Hq, Hcdf.
  rewrite Ha in Hq, Hcdf.
  exists (a - 1). split; [exact Hq |].
  destruct (Hcdf (Fin (a - 1)) eq_refl) as [Hpos _].
  rewrite Hpos; [| reflexivity | apply Rltb_true; lra].
  change (gamma_Q (Fin (a - 1) + of_int 1)%rt (mean (Poisson (Fin 1))))
    with (x_gamma_Q (Fin (a - 1 + 1)) (Fin 1)).
  replace (a - 1 + 1) with a by lra. now rewrite HQ.
Defined.

(** Mean 1 and q = 1/2, where the comparison fails: the result is the
    model's inverse of P minus 1, a number strictly between 0 and 1. *)
Lemma quantile_complement_literal_comparison_witness :
  ((of_int 0 <? mean (Poisson (Fin 1)))%rt = true /\
   isfinite (Fin (1 / 2)) = true /\ (of_int 0 <=? Fin (1 / 2))%rt = true /\
   (Fin (1 / 2) <=? of_int 1)%rt = true) /\
  (- Fin (1 / 2) <=? expm1 (- mean (Poisson (Fin 1))))%rt = false /\
  quantile_complement (Poisson (Fin 1)) (Fin (1 / 2))
  = Value (sub (gamma_P_inva (Fin 1) (Fin (1 / 2))) (of_int 1)) /\
  exists a : R, gamma_P_inva (Fin 1) (Fin (1 / 2)) = Fin a /\ 1 < a < 2.
Proof.
  destruct exp_minus_one_bounds as [_ Hup].
  assert (Hm : (of_int 0 <? mean (Poisson (Fin 1)))%rt = true)
    by (apply Rltb_true; lra).
  assert (Hqf : isfinite (Fin (1 / 2)) = true) by reflexivity.
  assert (Hq0 : (of_int 0 <=? Fin (1 / 2))%rt = true)
    by (apply Rleb_true; lra).
  assert (Hq1 : (Fin (1 / 2) <=? of_int 1)%rt = true)
    by (apply Rleb_true; lra).
  assert (Hcmp : (- Fin (1 / 2) <=? expm1 (- mean (Poisson (Fin 1))))%rt
                 = false)
    by (apply Rleb_false; lra).
  split; [repeat split; assumption |]. split; [exact Hcmp |].
  destruct (quantile_complement_literal_comparison (SP := lattice_Special)
              (Poisson (Fin 1)) (Fin (1 / 2)) Hm Hqf Hq0 Hq1) as [_ Hother].
  split; [exact (Hother Hcmp) |].
  destruct model_inverse_at_half as (a & Ha & Hb & _).
  exists a. split; [| exact Hb].
  cbn [gamma_P_inva lattice_Special]. unfold x_gamma_P_inva.
  cbn [lift2]. replace (1 - 1 / 2) with (1 / 2) by lra. exact Ha.
Defined.

End Concrete.

(** * Further properties of the header, for every element type *)

Section PoissonMore.

Context {T : Type} {RT : RealType T} {SP : Special T}.
Local Open Scope string_scope.
Local Open Scope rt_scope.

Implicit Types (dist : poisson_distribution T) (mean k p q : T).
Implicit Types (result : slot T).

(** The test [check_dist_and_k] makes, as one boolean. *)
Lemma check_dist_and_k_cases (f : string) mean k result :
  (isfinite mean && negb (mean <=? of_int 0)
   && isfinite k && negb (k <? of_int 0) = true /\
   check_dist_and_k f mean k result = (true, result)) \/
  (isfinite mean && negb (mean <=? of_int 0)
   && isfinite k && negb (k <? of_int 0) = false /\
   exists e, check_dist_and_k f mean k result = (false, e :: result) /\
             function e = f /\
             ((message e = msg_mean_NZ /\ val e = mean) \/
              (message e = msg_k /\ val e = k))).
Proof.
  unfold check_dist_and_k, check_dist, check_mean_NZ, check_k, domain_error.
  destruct (isfinite mean); simpl.
  2:{ right. split; [reflexivity |]. eexists. split; [reflexivity |].
      simpl. auto. }
  destruct (mean <=? of_int 0); simpl.
  1:{ right. split; [reflexivity |]. eexists. split; [reflexivity |].
      simpl. auto. }
  destruct (k <? of_int 0); simpl.
  1:{ right. split; [now rewrite andb_false_r |].
      eexists. split; [reflexivity |]. simpl. auto. }
  destruct (isfinite k); simpl.
  - left. auto.
  - right. split; [reflexivity |]. eexists. split; [reflexivity |].
    simpl. auto.
Qed.

(** A mean that passed [check_dist] is not [== 0]. *)
Lemma accepted_mean_nonzero mean :
  (mean <=? of_int 0) = false -> (mean =? of_int 0) = false.
Proof.
  intros Hle. destruct (mean =? of_int 0) eqn:E; [| reflexivity].
  apply eqb_leb in E. congruence.
Qed.

(** X1.  With a mean that passes its check, a negative or non-finite [k]
    makes [pdf], [cdf] and the complemented [cdf] return the domain error
    for [k]: the report names the evaluator, carries the message for the
    number of events, and holds the offending [k]. *)
Theorem invalid_k_is_reported dist k :
  isfinite (mean dist) = true -> (mean dist <=? of_int 0) = false ->
  (k <? of_int 0) = true \/ isfinite k = false ->
  pdf dist k = DomainError (Report "pdf" msg_k k) /\
  cdf dist k = DomainError (Report "cdf" msg_k k) /\
  cdf_complement dist k = DomainError (Report "cdf(complement)" msg_k k).
Proof.
  intros Hf Hle Hk. repeat split.
  - eapply pdf_rejected. now apply check_dist_and_k_k_rejected.
  - eapply cdf_rejected. now apply check_dist_and_k_k_rejected.
  - eapply cdf_complement_rejected. now apply check_dist_and_k_k_rejected.
Qed.

(** X2.  [pdf], [cdf] and the complemented [cdf] return a value exactly when
    the mean is finite and not [<= 0] and [k] is finite and not [< 0]; on
    every other input all three return a domain error.  For [pdf] the factorial
    table is assumed to hold an entry for every index below
    [max_factorial], an [unsigned]. *)
Theorem values_exactly_on_valid_input dist k :
  (max_factorial < 2 ^ 32)%N ->
  (max_factorial <= N.of_nat (List.length factorials))%N ->
  ((exists v, pdf dist k = Value v) <->
   isfinite (mean dist) && negb (mean dist <=? of_int 0)
   && isfinite k && negb (k <? of_int 0) = true) /\
  ((exists v, cdf dist k = Value v) <->
   isfinite (mean dist) && negb (mean dist <=? of_int 0)
   && isfinite k && negb (k <? of_int 0) = true) /\
  ((exists v, cdf_complement dist k = Value v) <->
   isfinite (mean dist) && negb (mean dist <=? of_int 0)
   && isfinite k && negb (k <? of_int 0) = true) /\
  (isfinite (mean dist) && negb (mean dist <=? of_int 0)
   && isfinite k && negb (k <? of_int 0) = false ->
   exists e1 e2 e3,
     pdf dist k = DomainError e1 /\ cdf dist k = DomainError e2 /\
     cdf_complement dist k = DomainError e3).
Proof.
  intros H32 Hlen.
  assert (Hvalid : forall f,
    isfinite (mean dist) && negb (mean dist <=? of_int 0)
    && isfinite k && negb (k <? of_int 0) = true ->
    check_dist_and_k f (mean dist) k [] = (true, []) /\
    (mean dist =? of_int 0) = false /\
    isfinite k = true /\ (k <? of_int 0) = false).
  { intros f Hv.
    destruct (check_dist_and_k_cases f (mean dist) k []) as [[_ H] | [H _]];
      [| congruence].
    split; [exact H |].
    destruct (check_dist_and_k_true_inv _ _ _ _ H) as (_ & Hle & Hkf & Hk & _).
    auto using accepted_mean_nonzero. }
  repeat split.
  - intros [v Hv].
    destruct (check_dist_and_k_cases "pdf" (mean dist) k [])
      as [[H _] | [_ (e & H & _)]]; [exact H |].
    rewrite (pdf_rejected _ _ H) in Hv. discriminate Hv.
  - intros Hv. destruct (Hvalid "pdf" Hv) as (Hchk & Hne & Hkf & Hk).
    rewrite (pdf_accepted dist k Hchk Hne).
    destruct (k =? of_int 0); [eauto |].
    destruct (floor k =? k) eqn:Hint; simpl; [| eauto].
    destruct (k <? of_int (Z.of_N max_factorial)) eqn:Hlt; [| eauto].
    destruct (fast_path_index k H32 Hlen Hkf Hk Hint Hlt) as (_ & _ & f & Hf).
    rewrite Hf. eauto.
  - intros [v Hv].
    destruct (check_dist_and_k_cases "cdf" (mean dist) k [])
      as [[H _] | [_ (e & H & _)]]; [exact H |].
    rewrite (cdf_rejected _ _ H) in Hv. discriminate Hv.
  - intros Hv. destruct (Hvalid "cdf" Hv) as (Hchk & Hne & _).
    rewrite (cdf_accepted dist k Hchk Hne).
    destruct (k =? of_int 0); eauto.
  - intros [v Hv].
    destruct (check_dist_and_k_cases "cdf(complement)" (mean dist) k [])
      as [[H _] | [_ (e & H & _)]]; [exact H |].
    rewrite (cdf_complement_rejected _ _ H) in Hv. discriminate Hv.
  - intros Hv. destruct (Hvalid "cdf(complement)" Hv) as (Hchk & Hne & _).
    rewrite (cdf_complement_accepted dist k Hchk Hne).
    destruct (k =? of_int 0); eauto.
  - intros Hinv.
    destruct (check_dist_and_k_cases "pdf" (mean dist) k [])
      as [[H _] | [_ (e1 & H1 & _)]]; [congruence |].
    destruct (check_dist_and_k_cases "cdf" (mean dist) k [])
      as [[H _] | [_ (e2 & H2 & _)]]; [congruence |].
    destruct (check_dist_and_k_cases "cdf(complement)" (mean dist) k [])
      as [[H _] | [_ (e3 & H3 & _)]]; [congruence |].
    exists e1, e2, e3.
    rewrite (pdf_rejected _ _ H1), (cdf_rejected _ _ H2),
      (cdf_complement_rejected _ _ H3).
    auto.
Qed.

(** X3.  A domain error returned by an evaluator always names that
    evaluator and holds one of its two arguments as the offending value,
    and no evaluator returns the result slot without having stored to
    it. *)
Theorem errors_name_their_source dist k :
  (pdf dist k <> Indeterminate /\
   forall e, pdf dist k = DomainError e ->
             function e = "pdf" /\ (val e = mean dist \/ val e = k)) /\
  (cdf dist k <> Indeterminate /\
   forall e, cdf dist k = DomainError e ->
             function e = "cdf" /\ (val e = mean dist \/ val e = k)) /\
  (cdf_complement dist k <> Indeterminate /\
   forall e, cdf_complement dist k = DomainError e ->
             function e = "cdf(complement)" /\
             (val e = mean dist \/ val e = k)) /\
  (quantile dist k <> Indeterminate /\
   forall e, quantile dist k = DomainError e ->
             function e = "quantile" /\ (val e = mean dist \/ val e = k)) /\
  (quantile_complement dist k <> Indeterminate /\
   forall e, quantile_complement dist k = DomainError e ->
             function e = "quantile(complement)" /\
             (val e = mean dist \/ val e = k)).
Proof.
  unfold pdf, cdf, cdf_complement, quantile, quantile_complement,
    check_dist_and_k, check_dist, check_prob, check_mean_NZ, check_k,
    domain_error.
  repeat split; intros.
  all: repeat match goal with
              | |- context [if ?b then _ else _] => destruct b; simpl
              | H : context [if ?b then _ else _] |- _ =>
                  destruct b; simpl in H
              | |- context [match unchecked_factorial ?i with _ => _ end] =>
                  destruct (unchecked_factorial i); simpl
              | H : context [match unchecked_factorial ?i with _ => _ end]
                |- _ => destruct (unchecked_factorial i); simpl in H
              end.
  all: try discriminate.
  all: match goal with
       | H : _ = DomainError _ |- _ => injection H as <-; simpl; auto
       end.
Qed.

(** X4.  [check_dist_and_k] and [check_dist_and_prob] either answer [true]
    and leave the slot as it was, which happens exactly when both arguments
    pass, or answer [false] after one store.  The stored report names the
    caller and is about the mean when the mean fails, and about the second
    argument only when the mean passes. *)
Theorem composite_checks_store_once (f : string) mean k p result :
  (check_dist_and_k f mean k result = (true, result) /\
   isfinite mean && negb (mean <=? of_int 0)
   && (negb (k <? of_int 0) && isfinite k) = true \/
   exists e,
     check_dist_and_k f mean k result = (false, e :: result) /\
     function e = f /\
     (isfinite mean && negb (mean <=? of_int 0) = false ->
      message e = msg_mean_NZ /\ val e = mean) /\
     (isfinite mean && negb (mean <=? of_int 0) = true ->
      message e = msg_k /\ val e = k /\
      negb (k <? of_int 0) && isfinite k = false)) /\
  (check_dist_and_prob f mean p result = (true, result) /\
   isfinite mean && negb (mean <=? of_int 0)
   && (isfinite p && negb (p <? of_int 0) && negb (p >? of_int 1)) = true \/
   exists e,
     check_dist_and_prob f mean p result = (false, e :: result) /\
     function e = f /\
     (isfinite mean && negb (mean <=? of_int 0) = false ->
      message e = msg_mean_NZ /\ val e = mean) /\
     (isfinite mean && negb (mean <=? of_int 0) = true ->
      message e = msg_prob /\ val e = p /\
      isfinite p && negb (p <? of_int 0) && negb (p >? of_int 1) = false)).
Proof.
  unfold check_dist_and_k, check_dist_and_prob, check_dist, check_mean_NZ,
    check_k, check_prob, domain_error.
  destruct (isfinite mean); simpl.
  2:{ split; right; eexists; (split; [reflexivity |]); simpl;
        repeat split; auto; discriminate. }
  destruct (mean <=? of_int 0); simpl.
  1:{ split; right; eexists; (split; [reflexivity |]); simpl;
        repeat split; auto; discriminate. }
  split.
  - destruct (k <? of_int 0); simpl.
    1:{ right. eexists. split; [reflexivity |]. simpl.
        repeat split; auto; discriminate. }
    destruct (isfinite k); simpl.
    + left. auto.
    + right. eexists. split; [reflexivity |]. simpl.
      repeat split; auto; discriminate.
  - destruct (isfinite p); simpl.
    2:{ right. eexists. split; [reflexivity |]. simpl.
        repeat split; auto; discriminate. }
    destruct (p <? of_int 0); simpl.
    1:{ right. eexists. split; [reflexivity |]. simpl.
        repeat split; auto; discriminate. }
    destruct (p >? of_int 1); simpl.
    + right. eexists. split; [reflexivity |]. simpl.
      repeat split; auto; discriminate.
    + left. auto.
Qed.

(** X5.  [check_mean] and [check_mean_NZ] differ on zero only.  A finite
    mean that is [<= 0] without being [< 0] passes [check_mean] and fails
    [check_mean_NZ]; whatever passes [check_mean_NZ] passes [check_mean];
    and a non-finite or negative mean fails both, each with its own
    message. *)
Theorem mean_checks_differ_at_zero (f : string) mean result :
  isfinite mean = true -> (mean <? of_int 0) = false ->
  (mean <=? of_int 0) = true ->
  (check_mean f mean result = (true, result) /\
   check_mean_NZ f mean result
   = (false, Report f msg_mean_NZ mean :: result)) /\
  (forall m, check_mean_NZ f m result = (true, result) ->
             check_mean f m result = (true, result)) /\
  (forall m, isfinite m = false \/ (m <? of_int 0) = true ->
             check_mean f m result
             = (false,
                Report f "Mean argument is %1%, but must be >= 0 !" m
                  :: result) /\
             check_mean_NZ f m result
             = (false, Report f msg_mean_NZ m :: result)).
Proof.
  intros Hf Hlt Hle. repeat split.
  - unfold check_mean. now rewrite Hf, Hlt.
  - apply check_mean_NZ_rejects. now right.
  - intros m. unfold check_mean_NZ, check_mean.
    destruct (isfinite m); simpl; [| discriminate].
    destruct (m <=? of_int 0) eqn:E; [discriminate |].
    destruct (m <? of_int 0) eqn:E'; [| reflexivity].
    apply ltb_leb in E'. congruence.
  - unfold check_mean, domain_error.
    destruct H as [H | H]; rewrite H; simpl;
      rewrite ?orb_true_r; reflexivity.
  - apply check_mean_NZ_rejects.
    destruct H as [H | H]; [now left | right; now apply ltb_leb].
Qed.

(** With a mean that passed [check_dist], a domain error from [pdf], [cdf]
    or the complemented [cdf] is about [k]. *)
Lemma accepted_mean_errors_are_about_k (m k : T) (e : report T) :
  isfinite m = true -> (m <=? of_int 0) = false ->
  pdf (Poisson m) k = DomainError e \/
  cdf (Poisson m) k = DomainError e \/
  cdf_complement (Poisson m) k = DomainError e ->
  message e = msg_k /\ val e = k.
Proof.
  intros Hf Hle He.
  assert (Hne := accepted_mean_nonzero _ Hle).
  assert (Hcase : forall f,
    check_dist_and_k f m k [] = (true, []) \/
    check_dist_and_k f m k [] = (false, [Report f msg_k k])).
  { intros f.
    destruct (k <? of_int 0) eqn:Hk.
    - right. apply check_dist_and_k_k_rejected; auto.
    - destruct (isfinite k) eqn:Hkf.
      + left. now apply check_dist_and_k_accepts.
      + right. apply check_dist_and_k_k_rejected; auto. }
  destruct He as [He | [He | He]].
  - destruct (Hcase "pdf") as [H | H].
    + rewrite (pdf_accepted (Poisson m) k H Hne) in He.
      destruct (k =? of_int 0); [discriminate |].
      destruct ((floor k =? k) && (k <? of_int (Z.of_N max_factorial)));
        [| discriminate].
      destruct (unchecked_factorial (real_cast (floor k))); discriminate.
    + rewrite (pdf_rejected (Poisson m) k H) in He.
      injection He as <-. auto.
  - destruct (Hcase "cdf") as [H | H].
    + rewrite (cdf_accepted (Poisson m) k H Hne) in He.
      destruct (k =? of_int 0); discriminate.
    + rewrite (cdf_rejected (Poisson m) k H) in He.
      injection He as <-. auto.
  - destruct (Hcase "cdf(complement)") as [H | H].
    + rewrite (cdf_complement_accepted (Poisson m) k H Hne) in He.
      destruct (k =? of_int 0); discriminate.
    + rewrite (cdf_complement_rejected (Poisson m) k H) in He.
      injection He as <-. auto.
Qed.

(** X6.  The constructor and the error policy.  A mean that passes
    [check_dist] is constructed under either policy, with nothing stored.
    A mean that fails it raises under the throwing policy, so that no
    object exists, and under the sentinel policy yields the object with
    the report for the mean in the dropped local; [pdf], [cdf] and the
    complemented [cdf] then repeat the check and return the mean's domain
    error for every [k].  Whatever was constructed holds the mean it was
    given; under the throwing policy it was constructed with nothing
    stored, and when nothing was stored a domain error from those
    evaluators is about [k]. *)
Theorem constructor_check_is_repeated (throws : bool) (m k : T) :
  (isfinite m = true -> (m <=? of_int 0) = false ->
   poisson_distribution_ctor throws m = Constructed (Poisson m) []) /\
  (isfinite m = false \/ (m <=? of_int 0) = true ->
   poisson_distribution_ctor throws m
   = (if throws
      then ConstructionRaised (Report "poisson_distribution" msg_mean_NZ m)
      else Constructed (Poisson m)
             [Report "poisson_distribution" msg_mean_NZ m]) /\
   pdf (Poisson m) k = DomainError (Report "pdf" msg_mean_NZ m) /\
   cdf (Poisson m) k = DomainError (Report "cdf" msg_mean_NZ m) /\
   cdf_complement (Poisson m) k
   = DomainError (Report "cdf(complement)" msg_mean_NZ m)) /\
  (forall d r,
     poisson_distribution_ctor throws m = Constructed d r ->
     d = Poisson m /\
     (throws = true -> r = []) /\
     (r = [] ->
      forall e,
        pdf d k = DomainError e \/ cdf d k = DomainError e \/
        cdf_complement d k = DomainError e ->
        message e = msg_k /\ val e = k)).
Proof.
  unfold poisson_distribution_ctor, check_dist. cbn [m_l].
  split; [| split].
  - intros Hf Hle. now rewrite check_mean_NZ_accepts.
  - intros Hbad. split; [| repeat split].
    + rewrite check_mean_NZ_rejects by assumption. now destruct throws.
    + eapply pdf_rejected.
      now apply (check_dist_and_k_mean_rejected "pdf" m k []).
    + eapply cdf_rejected.
      now apply (check_dist_and_k_mean_rejected "cdf" m k []).
    + eapply cdf_complement_rejected.
      now apply (check_dist_and_k_mean_rejected "cdf(complement)" m k []).
  - intros d r. unfold check_mean_NZ, domain_error.
    destruct (negb (isfinite m) || (m <=? of_int 0)) eqn:Hbad.
    + destruct throws; [discriminate |].
      intros H. injection H as <- <-.
      split; [reflexivity |]. split; discriminate.
    + intros H. injection H as <- <-.
      apply orb_false_iff in Hbad. destruct Hbad as [Hf Hle].
      apply negb_false_iff in Hf.
      split; [reflexivity |]. split; [reflexivity |].
      intros _ e He. eapply accepted_mean_errors_are_about_k; eassumption.
Qed.

(** X7.  At [k == 0] the cumulative function is the mass function, as the
    comment in [cdf] says: [pdf] and [cdf] return the same value there, or
    fail together with reports of the same message and offending value. *)
Theorem cdf_is_pdf_at_zero dist k :
  (k =? of_int 0) = true ->
  (exists v, pdf dist k = Value v /\ cdf dist k = Value v) \/
  (exists e1 e2,
     pdf dist k = DomainError e1 /\ cdf dist k = DomainError e2 /\
     message e1 = message e2 /\ val e1 = val e2).
Proof.
  intros Hz.
  destruct (check_dist_and_k_cases "pdf" (mean dist) k [])
    as [[Hv Hp] | [Hv (e1 & Hp & _ & Hm1)]];
  destruct (check_dist_and_k_cases "cdf" (mean dist) k [])
    as [[Hv' Hc] | [Hv' (e2 & Hc & _ & Hm2)]]; try congruence.
  - left.
    destruct (check_dist_and_k_true_inv _ _ _ _ Hp) as (_ & Hle & _).
    assert (Hne := accepted_mean_nonzero _ Hle).
    rewrite (pdf_accepted dist k Hp Hne), (cdf_accepted dist k Hc Hne), Hz.
    eauto.
  - right. exists e1, e2.
    rewrite (pdf_rejected _ _ Hp), (cdf_rejected _ _ Hc).
    repeat split.
    + unfold check_dist_and_k, check_dist, check_mean_NZ, check_k,
        domain_error in Hp, Hc.
      destruct (negb (isfinite (mean dist)) || (mean dist <=? of_int 0));
        simpl in Hp, Hc.
      * injection Hp as <-. injection Hc as <-. reflexivity.
      * destruct ((k <? of_int 0) || negb (isfinite k)); simpl in Hp, Hc;
          [| discriminate].
        injection Hp as <-. injection Hc as <-. reflexivity.
    + unfold check_dist_and_k, check_dist, check_mean_NZ, check_k,
        domain_error in Hp, Hc.
      destruct (negb (isfinite (mean dist)) || (mean dist <=? of_int 0));
        simpl in Hp, Hc.
      * injection Hp as <-. injection Hc as <-. reflexivity.
      * destruct ((k <? of_int 0) || negb (isfinite k)); simpl in Hp, Hc;
          [| discriminate].
        injection Hp as <-. injection Hc as <-. reflexivity.
Qed.

(** X14.  With a mean that compares equal to zero and a probability that
    passes [check_prob], both quantiles reach the guarded [check_mean_NZ]
    and return its report: the message that the mean must be above zero,
    with the mean as the offending value. *)
Theorem quantile_zero_mean_report dist p :
  (mean dist =? of_int 0) = true ->
  isfinite p = true -> (p <? of_int 0) = false -> (p >? of_int 1) = false ->
  quantile dist p = DomainError (Report "quantile" msg_mean_NZ (mean dist)) /\
  quantile_complement dist p
  = DomainError (Report "quantile(complement)" msg_mean_NZ (mean dist)).
Proof.
  intros Hz Hf H0 H1.
  unfold quantile, quantile_complement.
  rewrite !check_prob_accepts by assumption. simpl. rewrite Hz.
  rewrite !check_mean_NZ_rejects by (right; now apply eqb_leb).
  split; reflexivity.
Qed.

End PoissonMore.

(** * Further properties over the exact element type *)

Section ExactMore.

Context {SP : Special xreal}.
Local Open Scope string_scope.
Local Open Scope R_scope.


Lemma exp_pos_above_one (l : R) : l < 0 -> 1 < Rexp (- l).
Proof.
  intros Hl. rewrite <- exp_0. apply exp_increasing. lra.
Qed.



Lemma x_quantile_complement_eval (l q : R) :
  l <> 0 -> 0 <= q <= 1 ->
  quantile_complement (Poisson (Fin l)) (Fin q) =
  if Rleb (- q) (Rexp (- l) - 1) then Value (Fin 0)
  else Value (sub (gamma_P_inva (Fin l) (Fin q)) (of_int 1)).
Proof.
  intros Hl Hq.
  rewrite quantile_complement_mean_nonzero;
    [| apply x_prob_accepts; lra | apply x_mean_nonzero; lra].
  reflexivity.
Qed.

Lemma x_quantile_eval (l p : R) :
  l <> 0 -> 0 <= p <= 1 ->
  quantile (Poisson (Fin l)) (Fin p) =
  if Rleb p (Rexp (- l)) then Value (Fin 0)
  else Value (sub (gamma_Q_inva (Fin l) (Fin p)) (of_int 1)).
Proof.
  intros Hl Hp.
  rewrite quantile_mean_nonzero;
    [| apply x_prob_accepts; lra | apply x_mean_nonzero; lra].
  reflexivity.
Qed.

(** X10.  For every finite mean other than zero, above or below it,
    [quantile] returns 0 at [p = 0] and the complemented quantile returns 0
    at [q = 1], without calling the inverse: [exp] is never below 0 and
    [expm1] is never below -1. *)
Theorem quantile_zero_at_range_ends (l : R) :
  l <> 0 ->
  quantile (Poisson (Fin l)) (Fin 0) = Value (Fin 0) /\
  quantile_complement (Poisson (Fin l)) (Fin 1) = Value (Fin 0).
Proof.
  intros Hl. assert (He := exp_pos (- l)). split.
  - rewrite x_quantile_eval by lra.
    now replace (Rleb 0 (Rexp (- l))) with true by (symmetry; r_prop; lra).
  - rewrite x_quantile_complement_eval by lra.
    now replace (Rleb (- (1)) (Rexp (- l) - 1)) with true
      by (symmetry; r_prop; lra).
Qed.

(** X11.  A negative finite mean is never rejected by the quantiles: for
    every probability in [0, 1] both return the value 0, because the guard
    around the mean check only fires at zero and [exp(-mean)] exceeds 1. *)
Theorem quantiles_of_negative_mean (l p : R) :
  l < 0 -> 0 <= p <= 1 ->
  quantile (Poisson (Fin l)) (Fin p) = Value (Fin 0) /\
  quantile_complement (Poisson (Fin l)) (Fin p) = Value (Fin 0).
Proof.
  intros Hl Hp. assert (He := exp_pos_above_one Hl). split.
  - rewrite x_quantile_eval by lra.
    now replace (Rleb p (Rexp (- l))) with true by (symmetry; r_prop; lra).
  - rewrite x_quantile_complement_eval by lra.
    now replace (Rleb (- p) (Rexp (- l) - 1)) with true
      by (symmetry; r_prop; lra).
Qed.


End ExactMore.

(** * The further properties at concrete inputs *)

Section ConcreteMore.

Local Open Scope string_scope.
Local Open Scope R_scope.

(** Mean 1 and k = -1. *)
Lemma invalid_k_is_reported_witness :
  (isfinite (mean (Poisson (Fin 1))) = true /\
   (mean (Poisson (Fin 1)) <=? of_int 0)%rt = false) /\
  ((Fin (- 1) <? of_int 0)%rt = true \/ isfinite (Fin (- 1)) = false) /\
  pdf (Poisson (Fin 1)) (Fin (- 1))
  = DomainError (Report "pdf" msg_k (Fin (- 1))).
Proof.
  assert (Hf : isfinite (mean (Poisson (Fin 1))) = true) by reflexivity.
  assert (Hle : (mean (Poisson (Fin 1)) <=? of_int 0)%rt = false)
    by (apply Rleb_false; lra).
  assert (Hk : (Fin (- 1) <? of_int 0)%rt = true \/
               isfinite (Fin (- 1)) = false)
    by (left; apply Rltb_true; lra).
  repeat split; try assumption.
  exact (proj1 (invalid_k_is_reported (SP := lattice_Special)
                  (Poisson (Fin 1)) (Fin (- 1)) Hf Hle Hk)).
Defined.

(** Mean 1 and three events are valid, so [pdf] returns a value. *)
Lemma values_exactly_on_valid_input_witness :
  ((@max_factorial _ lattice_Special < 2 ^ 32)%N /\
   (@max_factorial _ lattice_Special
    <= N.of_nat (List.length (@factorials _ lattice_Special)))%N) /\
  exists v, pdf (Poisson (Fin 1)) (Fin 3) = Value v.
Proof.
  destruct lattice_table_size as [H32 Hlen].
  split; [split; assumption |].
  destruct (values_exactly_on_valid_input (Poisson (Fin 1)) (Fin 3) H32 Hlen)
    as ([_ Hpdf] & _).
  apply Hpdf.
  cbn [mean m_l isfinite xreal_RealType x_isfinite leb ltb cmp2 of_int].
  replace (Rleb 1 0) with false by (symmetry; apply Rleb_false; lra).
  replace (Rltb 3 0) with false by (symmetry; apply Rltb_false; lra).
  reflexivity.
Defined.

(** Mean 0. *)
Lemma mean_checks_differ_at_zero_witness :
  (isfinite (Fin 0) = true /\ (Fin 0 <? of_int 0)%rt = false /\
   (Fin 0 <=? of_int 0)%rt = true) /\
  check_mean "pdf" (Fin 0) [] = (true, []) /\
  check_mean_NZ "pdf" (Fin 0) [] = (false, [Report "pdf" msg_mean_NZ (Fin 0)]).
Proof.
  assert (Hf : isfinite (Fin 0) = true) by reflexivity.
  assert (Hlt : (Fin 0 <? of_int 0)%rt = false) by (apply Rltb_false; lra).
  assert (Hle : (Fin 0 <=? of_int 0)%rt = true) by (apply Rleb_true; lra).
  split; [repeat split; assumption |].
  exact (proj1 (mean_checks_differ_at_zero "pdf" (Fin 0) [] Hf Hlt Hle)).
Defined.

(** Mean 1 and no event. *)
Lemma cdf_is_pdf_at_zero_witness :
  (Fin 0 =? of_int 0)%rt = true /\
  ((exists v, pdf (Poisson (Fin 1)) (Fin 0) = Value v /\
              cdf (Poisson (Fin 1)) (Fin 0) = Value v) \/
   (exists e1 e2,
      pdf (Poisson (Fin 1)) (Fin 0) = DomainError e1 /\
      cdf (Poisson (Fin 1)) (Fin 0) = DomainError e2 /\
      message e1 = message e2 /\ val e1 = val e2)).
Proof.
  assert (Hz : (Fin 0 =? of_int 0)%rt = true)
    by (apply Reqb_true; reflexivity).
  split; [exact Hz |].
  exact (cdf_is_pdf_at_zero (SP := lattice_Special) (Poisson (Fin 1))
           (Fin 0) Hz).
Defined.

(** Mean 0 and probability 1/2. *)
Lemma quantile_zero_mean_report_witness :
  ((mean (Poisson (Fin 0)) =? of_int 0)%rt = true /\
   isfinite (Fin (1 / 2)) = true /\ (Fin (1 / 2) <? of_int 0)%rt = false /\
   (Fin (1 / 2) >? of_int 1)%rt = false) /\
  quantile (Poisson (Fin 0)) (Fin (1 / 2))
  = DomainError (Report "quantile" msg_mean_NZ (Fin 0)).
Proof.
  assert (Hz : (mean (Poisson (Fin 0)) =? of_int 0)%rt = true)
    by (apply Reqb_true; reflexivity).
  assert (Hf : isfinite (Fin (1 / 2)) = true) by reflexivity.
  assert (H0 : (Fin (1 / 2) <? of_int 0)%rt = false)
    by (apply Rltb_false; lra).
  assert (H1 : (Fin (1 / 2) >? of_int 1)%rt = false)
    by (apply Rltb_false; lra).
  split; [repeat split; assumption |].
  exact (proj1 (quantile_zero_mean_report (SP := lattice_Special)
                  (Poisson (Fin 0)) (Fin (1 / 2)) Hz Hf H0 H1)).
Defined.

(** Mean -2 and probability 1/2. *)
Lemma quantiles_of_negative_mean_witness :
  - (2) < 0 /\ 0 <= 1 / 2 <= 1 /\
  quantile (Poisson (Fin (- (2)))) (Fin (1 / 2)) = Value (Fin 0) /\
  quantile_complement (Poisson (Fin (- (2)))) (Fin (1 / 2)) = Value (Fin 0).
Proof.
  assert (Hl : - (2) < 0) by lra.
  assert (Hp : 0 <= 1 / 2 <= 1) by lra.
  split; [exact Hl |]. split; [exact Hp |].
  exact (quantiles_of_negative_mean (SP := lattice_Special) Hl Hp).
Defined.


(** Mean 1. *)
Lemma quantile_zero_at_range_ends_witness :
  1 <> 0 /\
  quantile (Poisson (Fin 1)) (Fin 0) = Value (Fin 0) /\
  quantile_complement (Poisson (Fin 1)) (Fin 1) = Value (Fin 0).
Proof.
  assert (Hl : 1 <> 0) by lra.
  split; [exact Hl |].
  exact (quantile_zero_at_range_ends (SP := lattice_Special) Hl).
Defined.

End ConcreteMore.
